(** * The service-worker command channel of [MainHelper]

    A shallow embedding of [MainHelper.establishServiceWorkerChannel]
    (src/helpers/MainHelper.ts) and of the four command handlers it
    registers, together with the properties the design document states
    about them.

    The handlers are JavaScript closures over ambient state
    ([OneSignal.*], [location], [Date], the IndexedDb wrapper, the event
    emitter, the proxy frame messenger).  They are embedded as
    computations of a small monad [Async] that threads a [World], collects
    the effects a run emits in order, and finishes as a promise does:
    fulfilled, rejected, or pending for ever. *)

From Stdlib Require Import ZArith.
From stdpp Require Import gmap strings list.

Open Scope string_scope.
Open Scope list_scope.

(** ** Data model *)

(** Modelled from the spec: the enumeration [WindowEnvironmentKind]
    (models/WindowEnvironmentKind is imported but its declaration is not
    part of the sources at hand).  The handler only ever compares the
    current role with [OneSignalProxyFrame], the embedded proxy role; every
    other role is kept by its name. *)
Inductive WindowEnvironmentKind : Type :=
| OneSignalProxyFrame
| OtherWindowEnvironment (name : string).

#[global] Instance WindowEnvironmentKind_eq_dec : EqDecision WindowEnvironmentKind.
Proof. solve_decision. Defined.

(** The members of [OneSignal.EVENTS] that [MainHelper] names. *)
Inductive EventName : Type :=
| NOTIFICATION_DISPLAYED
| NOTIFICATION_CLICKED
| NOTIFICATION_DISMISSED
| CUSTOM_PROMPT_CLICKED.

#[global] Instance EventName_eq_dec : EqDecision EventName.
Proof. solve_decision. Defined.

(** The enumeration [WorkerMessengerCommand] of the worker messenger (the
    declaration is in ../libraries/WorkerMessenger, not part of the sources
    at hand): the four members that [MainHelper] binds, and whatever other
    member the library has, kept by its name.  The messenger is the shared
    [OneSignal.context.workerMessenger], on which other code may have
    registered handlers of its own. *)
Inductive WorkerMessengerCommand : Type :=
| NotificationDisplayed
| NotificationClicked
| RedirectPage
| NotificationDismissed
| OtherWorkerMessengerCommand (name : string).

#[global] Instance WorkerMessengerCommand_eq_dec : EqDecision WorkerMessengerCommand.
Proof. solve_decision. Defined.

#[global] Instance WorkerMessengerCommand_countable : Countable WorkerMessengerCommand.
Proof.
  refine (inj_countable'
    (λ c, match c return nat + string with
          | NotificationDisplayed => inl 0 | NotificationClicked => inl 1
          | RedirectPage => inl 2 | NotificationDismissed => inl 3
          | OtherWorkerMessengerCommand name => inr name
          end)
    (λ x, match x with
          | inl 0 => NotificationDisplayed | inl 1 => NotificationClicked
          | inl 2 => RedirectPage | inl _ => NotificationDismissed
          | inr name => OtherWorkerMessengerCommand name
          end) _).
  by intros [].
Defined.

(** The members of [OneSignal.POSTMAM_COMMANDS] that [MainHelper] names. *)
Inductive PostmamCommand : Type :=
| GET_EVENT_LISTENER_COUNT
| SERVICEWORKER_COMMAND_REDIRECT.

#[global] Instance PostmamCommand_eq_dec : EqDecision PostmamCommand.
Proof. solve_decision. Defined.

(** The payload [data] of a command.  Notification commands carry an object
    with an optional [url] and further metadata; a redirect command carries
    the target URL itself. *)
Inductive Payload : Type :=
| NotificationData (url : option string) (metadata : list (string * string))
| RedirectUrl (target : string).

#[global] Instance Payload_eq_dec : EqDecision Payload.
Proof. solve_decision. Defined.

(** [data.url]: a property read.  On a value without that property the
    read gives [undefined], here [None]. *)
Definition data_url (data : Payload) : option string :=
  match data with
  | NotificationData url _ => url
  | RedirectUrl _ => None
  end.

(** JavaScript truthiness of a [string | undefined]: [undefined] and the
    empty string are falsy, every other string is truthy. *)
Definition truthy (v : option string) : bool :=
  match v with
  | None => false
  | Some s => negb (String.eqb s "")
  end.

(** The object written to the [NotificationOpened] table:
    [{ url: url, data: data, timestamp: Date.now() }]. *)
Record InboxEntry : Type := {
  url : option string;
  data : Payload;
  timestamp : Z
}.

#[global] Instance InboxEntry_eq_dec : EqDecision InboxEntry.
Proof. solve_decision. Defined.

(** What travels with a message over the proxy frame's messenger: the
    presence query sends an event name, the redirect relay the payload. *)
Inductive MessageData : Type :=
| EventNameData (event : EventName)
| PayloadData (payload : Payload).

#[global] Instance MessageData_eq_dec : EqDecision MessageData.
Proof. solve_decision. Defined.

(** The reply object handed to a reply callback; [reply.data] is the count. *)
Record PostmamReply : Type := { reply_data : Z }.

(** Modelled from the spec: the messenger of the proxy frame
    (modules/frames/ProxyFrame and its Postmam messenger are not part of the
    sources at hand).  [remote] is the controlling frame seen from this
    side: what it answers to a message, [None] when it never answers (there
    is no timeout on the round trip). *)
Record Postmam : Type := {
  remote : PostmamCommand → MessageData → option PostmamReply
}.

Record ProxyFrame : Type := { messenger : Postmam }.

(** [new Error(message)]. *)
Record JsError : Type := { message_of : string }.

#[global] Instance JsError_eq_dec : EqDecision JsError.
Proof. solve_decision. Defined.

(** The arguments of the three [log.debug] calls. *)
Inductive LogLine : Type :=
| LogDisplayReceived (origin : string)
| LogClickedNoListeners
| LogRedirectPickedUp (env : WindowEnvironmentKind) (data : Payload).

#[global] Instance LogLine_eq_dec : EqDecision LogLine.
Proof. solve_decision. Defined.

(** What a handler does to the outside, in the order it does it. *)
Inductive Effect : Type :=
| LogDebug (line : LogLine)
| EventTrigger (event : EventName) (data : Payload)
| PostmamMessage (command : PostmamCommand) (data : MessageData) (expectsReply : bool)
| DatabasePut (table : string) (entry : InboxEntry).

#[global] Instance Effect_eq_dec : EqDecision Effect.
Proof. solve_decision. Defined.

(** An application listener is an opaque handle. *)
Definition Listener : Type := nat.

(** The ambient state the handlers read and write. *)
Record World : Type := {
  windowEnv : WindowEnvironmentKind;          (* SdkEnvironment.getWindowEnv() *)
  proxyFrame : option ProxyFrame;             (* OneSignal.proxyFrame *)
  listeners : EventName → list Listener;      (* OneSignal.getListeners(event) *)
  location_origin : string;                   (* location.origin *)
  location_href : string;                     (* location.href *)
  clock : Z;                                  (* Date.now() *)
  storageFault : option JsError;              (* the storage layer refuses writes *)
  database : gmap string (list InboxEntry)    (* the tables of the durable store *)
}.

Definition set_database (f : gmap string (list InboxEntry) → gmap string (list InboxEntry))
    (w : World) : World :=
  {| windowEnv := windowEnv w; proxyFrame := proxyFrame w; listeners := listeners w;
     location_origin := location_origin w; location_href := location_href w;
     clock := clock w; storageFault := storageFault w;
     database := f (database w) |}.

(** The rows of a table, oldest first. *)
Definition rows (table : string) (w : World) : list InboxEntry :=
  default [] (database w !! table).

(** ** The [Async] monad *)

(** How a promise ends. *)
Inductive Outcome (A : Type) : Type :=
| Fulfilled (value : A)
| Rejected (reason : JsError)
| Pending.
Arguments Fulfilled {A} value.
Arguments Rejected {A} reason.
Arguments Pending {A}.

Record Run (A : Type) : Type := {
  outcome : Outcome A;
  final : World;
  emitted : list Effect
}.
Arguments outcome {A} _.
Arguments final {A} _.
Arguments emitted {A} _.

Definition Async (A : Type) : Type := World → Run A.

#[global] Instance Async_ret : MRet Async := λ A a w,
  {| outcome := Fulfilled a; final := w; emitted := [] |}.

(** Sequencing, also across an [await]: a rejection or a promise that never
    settles ends the run where it stands. *)
#[global] Instance Async_bind : MBind Async := λ A B k m w,
  let r := m w in
  match outcome r with
  | Fulfilled a =>
      let r' := k a (final r) in
      {| outcome := outcome r'; final := final r'; emitted := emitted r ++ emitted r' |}
  | Rejected e => {| outcome := Rejected e; final := final r; emitted := emitted r |}
  | Pending => {| outcome := Pending; final := final r; emitted := emitted r |}
  end.

Definition gets {A : Type} (f : World → A) : Async A := λ w,
  {| outcome := Fulfilled (f w); final := w; emitted := [] |}.

Definition emit (e : Effect) : Async unit := λ w,
  {| outcome := Fulfilled tt; final := w; emitted := [e] |}.

(** The argument of a promise's [resolve], if [resolve] is ever called. *)
Definition Resolution (A : Type) : Type := option A.
Definition resolve {A : Type} (a : A) : Resolution A := Some a.
Definition unresolved {A : Type} : Resolution A := None.

(** [await new Promise(resolve => ...)]: the executor runs at once; the
    promise is fulfilled with what [resolve] is called with, and stays
    pending when [resolve] is never called. *)
Definition new_Promise {A : Type} (executor : Async (Resolution A)) : Async A := λ w,
  let r := executor w in
  match outcome r with
  | Fulfilled (Some a) => {| outcome := Fulfilled a; final := final r; emitted := emitted r |}
  | Fulfilled None => {| outcome := Pending; final := final r; emitted := emitted r |}
  | Rejected e => {| outcome := Rejected e; final := final r; emitted := emitted r |}
  | Pending => {| outcome := Pending; final := final r; emitted := emitted r |}
  end.

(** ** The collaborators of the handlers *)

(** [SdkEnvironment.getWindowEnv()]. *)
Definition SdkEnvironment_getWindowEnv : Async WindowEnvironmentKind := gets windowEnv.

(** A read of [OneSignal.proxyFrame]; [None] is a missing frame. *)
Definition OneSignal_proxyFrame : Async (option ProxyFrame) := gets proxyFrame.

(** [OneSignal.getListeners(event)]: the array of listeners of [event]. *)
Definition OneSignal_getListeners (event : EventName) : Async (list Listener) :=
  gets (λ w, listeners w event).

(** [log.debug(...)]. *)
Definition log_debug (line : LogLine) : Async unit := emit (LogDebug line).

(** Modelled from the spec: [Event.trigger] (../Event is not part of the
    sources at hand), the broadcaster: it fans the payload out to the local
    listeners of the event; a failing listener does not fail the caller.
    The call is what a run records. *)
Definition Event_trigger (event : EventName) (data : Payload) : Async unit :=
  emit (EventTrigger event data).

(** Modelled from the spec: [messenger.message(command, data, onReply)] of
    the proxy frame (not part of the sources at hand).  The message is sent
    to the controlling frame.  Without [onReply] nothing is expected back;
    with it, [onReply] is called with the reply of the controlling frame,
    once, if that reply ever comes.  The result is what [onReply] passed to
    the enclosing promise's [resolve]. *)
Definition message {A : Type} (m : Postmam) (command : PostmamCommand) (data : MessageData)
    (onReply : option (PostmamReply → Resolution A)) : Async (Resolution A) := λ w,
  {| outcome :=
       Fulfilled (match onReply with
                  | Some callback =>
                      match remote m command data with
                      | Some reply => callback reply
                      | None => unresolved
                      end
                  | None => unresolved
                  end);
     final := w;
     emitted := [PostmamMessage command data (bool_decide (is_Some onReply))] |}.

(** Modelled from the spec: [Database.put(table, object)] (../services/Database
    is not part of the sources at hand), the durable inbox: it appends the
    object to the table and is fulfilled once that is written; a fault of the
    storage layer rejects the returned promise and writes nothing. *)
Definition Database_put (table : string) (entry : InboxEntry) : Async unit := λ w,
  match storageFault w with
  | Some e => {| outcome := Rejected e; final := w; emitted := [DatabasePut table entry] |}
  | None =>
      {| outcome := Fulfilled tt;
         final := set_database (λ db, <[table := rows table w ++ [entry]]> db) w;
         emitted := [DatabasePut table entry] |}
  end.

(** ** The handlers registered by [establishServiceWorkerChannel] *)

(** [WorkerMessengerCommand.NotificationDisplayed] (lines 146-149). *)
Definition onNotificationDisplayed (data : Payload) : Async unit :=
  origin ← gets location_origin;
  log_debug (LogDisplayReceived origin);;
  Event_trigger NOTIFICATION_DISPLAYED data.

(** The listener count of the clicked handler (lines 152-169): asked of the
    controlling frame when this window is the proxy frame, read from the
    local listeners otherwise. *)
Definition clickedListenerCallbackCount : Async Z :=
  env ← SdkEnvironment_getWindowEnv;
  if decide (env = OneSignalProxyFrame) then
    new_Promise (
      proxyFrame ← OneSignal_proxyFrame;
      match proxyFrame with
      | Some proxyFrame =>
          message (messenger proxyFrame)
            GET_EVENT_LISTENER_COUNT
            (EventNameData NOTIFICATION_CLICKED)
            (Some (λ reply,
               let callbackCount := reply_data reply in
               resolve callbackCount))
      | None => mret unresolved
      end)
  else
    ls ← OneSignal_getListeners NOTIFICATION_CLICKED;
    mret (Z.of_nat (length ls)).

(** [WorkerMessengerCommand.NotificationClicked] (lines 151-201). *)
Definition onNotificationClicked (data : Payload) : Async unit :=
  count ← clickedListenerCallbackCount;
  if (count =? 0)%Z then
    log_debug LogClickedNoListeners;;
    url ← (if negb (truthy (data_url data))
           then href ← gets location_href; mret (Some href)
           else mret (data_url data));
    now ← gets clock;
    Database_put "NotificationOpened" {| url := url; data := data; timestamp := now |}
  else
    Event_trigger NOTIFICATION_CLICKED data.

(** [WorkerMessengerCommand.RedirectPage] (lines 203-211). *)
Definition onRedirectPage (data : Payload) : Async unit :=
  env ← SdkEnvironment_getWindowEnv;
  log_debug (LogRedirectPickedUp env data);;
  proxyFrame ← OneSignal_proxyFrame;
  match proxyFrame with
  | Some proxyFrame =>
      message (A := unit) (messenger proxyFrame)
        SERVICEWORKER_COMMAND_REDIRECT (PayloadData data) None;;
      mret tt
  | None => mret tt
  end.

(** [WorkerMessengerCommand.NotificationDismissed] (lines 213-215). *)
Definition onNotificationDismissed (data : Payload) : Async unit :=
  Event_trigger NOTIFICATION_DISMISSED data.

(** ** The command channel *)

(** Modelled from the spec: the [WorkerMessenger] (../libraries/WorkerMessenger
    is not part of the sources at hand), the command channel: it holds one
    handler per command kind; [on] associates a handler with a kind and
    replaces the one that was there; [off()] clears every registered handler,
    of every kind; a command of a kind without handler is dropped. *)
Record WorkerMessenger : Type := {
  replies : gmap WorkerMessengerCommand (Payload → Async unit)
}.

Definition WorkerMessenger_off (m : WorkerMessenger) : WorkerMessenger :=
  {| replies := ∅ |}.

Definition WorkerMessenger_on (command : WorkerMessengerCommand)
    (callback : Payload → Async unit) (m : WorkerMessenger) : WorkerMessenger :=
  {| replies := <[command := callback]> (replies m) |}.

Definition WorkerMessenger_dispatch (m : WorkerMessenger)
    (command : WorkerMessengerCommand) (data : Payload) : Async unit :=
  match replies m !! command with
  | Some callback => callback data
  | None => mret tt
  end.

(** [MainHelper.establishServiceWorkerChannel] (lines 142-216), as a
    transformer of [OneSignal.context.workerMessenger]. *)
Definition establishServiceWorkerChannel (workerMessenger : WorkerMessenger) : WorkerMessenger :=
  let workerMessenger := WorkerMessenger_off workerMessenger in
  let workerMessenger := WorkerMessenger_on NotificationDisplayed onNotificationDisplayed workerMessenger in
  let workerMessenger := WorkerMessenger_on NotificationClicked onNotificationClicked workerMessenger in
  let workerMessenger := WorkerMessenger_on RedirectPage onRedirectPage workerMessenger in
  let workerMessenger := WorkerMessenger_on NotificationDismissed onNotificationDismissed workerMessenger in
  workerMessenger.

(** The handler a call of [establishServiceWorkerChannel] registers for a
    command kind: one for each of the four kinds it binds, none for any
    other. *)
Definition handlerOf (command : WorkerMessengerCommand) : option (Payload → Async unit) :=
  match command with
  | NotificationDisplayed => Some onNotificationDisplayed
  | NotificationClicked => Some onNotificationClicked
  | RedirectPage => Some onRedirectPage
  | NotificationDismissed => Some onNotificationDismissed
  | OtherWorkerMessengerCommand _ => None
  end.

(** The four registrations of [establishServiceWorkerChannel] without the
    [workerMessenger.off()] they follow: what binding would be if it did not
    clear first. *)
Definition registerWithoutClearing (workerMessenger : WorkerMessenger) : WorkerMessenger :=
  let workerMessenger := WorkerMessenger_on NotificationDisplayed onNotificationDisplayed workerMessenger in
  let workerMessenger := WorkerMessenger_on NotificationClicked onNotificationClicked workerMessenger in
  let workerMessenger := WorkerMessenger_on RedirectPage onRedirectPage workerMessenger in
  let workerMessenger := WorkerMessenger_on NotificationDismissed onNotificationDismissed workerMessenger in
  workerMessenger.

(** ** Observations on a run *)

Definition isEventTrigger (e : Effect) : bool :=
  match e with EventTrigger _ _ => true | _ => false end.

Definition isDatabasePut (e : Effect) : bool :=
  match e with DatabasePut _ _ => true | _ => false end.

Definition isPostmamMessage (e : Effect) : bool :=
  match e with PostmamMessage _ _ _ => true | _ => false end.

Definition isLogDebug (e : Effect) : bool :=
  match e with LogDebug _ => true | _ => false end.

(** The calls of the broadcaster in a run. *)
Definition broadcasts {A : Type} (r : Run A) : list Effect :=
  filter (λ e, isEventTrigger e = true) (emitted r).

(** The messages a run sent over the proxy frame's messenger. *)
Definition messagesSent {A : Type} (r : Run A) : list Effect :=
  filter (λ e, isPostmamMessage e = true) (emitted r).

(** The writes a run asked of the durable store. *)
Definition putsIssued {A : Type} (r : Run A) : list Effect :=
  filter (λ e, isDatabasePut e = true) (emitted r).

(** The effects of a run other than its diagnostics. *)
Definition effectsOf {A : Type} (r : Run A) : list Effect :=
  filter (λ e, isLogDebug e = false) (emitted r).

(** The entries a run added to the inbox table of [w]. *)
Definition inboxAppended {A : Type} (w : World) (r : Run A) : list InboxEntry :=
  drop (length (rows "NotificationOpened" w)) (rows "NotificationOpened" (final r)).

(** The event was broadcast by the run of the clicked handler. *)
Definition clickedBroadcast (d : Payload) (w : World) : bool :=
  bool_decide (broadcasts (onNotificationClicked d w) = [EventTrigger NOTIFICATION_CLICKED d]).

(** Exactly one entry was appended to the inbox by the run of the clicked
    handler. *)
Definition clickedStored (d : Payload) (w : World) : bool :=
  bool_decide (length (inboxAppended w (onNotificationClicked d w)) = 1).

(** The entry of the zero-listener path. *)
Definition clickedEntry (d : Payload) (w : World) : InboxEntry :=
  {| url := if truthy (data_url d) then data_url d else Some (location_href w);
     data := d;
     timestamp := clock w |}.

(** The world [w] with another listener registry. *)
Definition set_listeners (ls : EventName → list Listener) (w : World) : World :=
  {| windowEnv := windowEnv w; proxyFrame := proxyFrame w; listeners := ls;
     location_origin := location_origin w; location_href := location_href w;
     clock := clock w; storageFault := storageFault w; database := database w |}.

(** The entry the run of the clicked handler asked the store to write, when
    it asked for exactly one write. *)
Definition inboxEntryWritten (d : Payload) (w : World) : option InboxEntry :=
  match putsIssued (onNotificationClicked d w) with
  | [DatabasePut _ entry] => Some entry
  | _ => None
  end.

(** Exactly one of the two outcomes of a click: broadcast, or one entry
    appended to the inbox. *)
Definition exactlyOneOutcome (d : Payload) (w : World) : bool :=
  xorb (clickedBroadcast d w) (clickedStored d w).

(** ** Sample worlds and payloads *)

(** A top-level page without listeners, at [https://example.com/page]. *)
Definition hostPage : World :=
  {| windowEnv := OtherWindowEnvironment "Host";
     proxyFrame := None;
     listeners := λ _, [];
     location_origin := "https://example.com";
     location_href := "https://example.com/page";
     clock := 1500000000000;
     storageFault := None;
     database := ∅ |}.

(** The same page with [n] listeners of the clicked event, and one of the
    displayed event. *)
Definition listeningPage (n : nat) : World :=
  {| windowEnv := windowEnv hostPage;
     proxyFrame := proxyFrame hostPage;
     listeners := λ event,
       match event with
       | NOTIFICATION_CLICKED => seq 0 n
       | NOTIFICATION_DISPLAYED => [40]
       | _ => []
       end;
     location_origin := location_origin hostPage;
     location_href := location_href hostPage;
     clock := clock hostPage;
     storageFault := storageFault hostPage;
     database := database hostPage |}.

(** The same page over a storage layer that refuses writes. *)
Definition quotaExceeded : JsError := {| message_of := "QuotaExceededError" |}.

Definition faultyPage : World :=
  {| windowEnv := windowEnv hostPage;
     proxyFrame := proxyFrame hostPage;
     listeners := listeners hostPage;
     location_origin := location_origin hostPage;
     location_href := location_href hostPage;
     clock := clock hostPage;
     storageFault := Some quotaExceeded;
     database := database hostPage |}.

(** A controlling frame that answers every message with the count [n], and
    one that never answers. *)
Definition answeringFrame (n : Z) : ProxyFrame :=
  {| messenger := {| remote := λ _ _, Some {| reply_data := n |} |} |}.

Definition silentFrame : ProxyFrame :=
  {| messenger := {| remote := λ _ _, None |} |}.

(** The embedded proxy frame, with [local] listeners of the clicked event of
    its own and the given reference to the controlling frame. *)
Definition proxyFrameWindow (local : nat) (frame : option ProxyFrame) : World :=
  {| windowEnv := OneSignalProxyFrame;
     proxyFrame := frame;
     listeners := listeners (listeningPage local);
     location_origin := "https://example.os.tc";
     location_href := "https://example.os.tc/webPushIframe";
     clock := clock hostPage;
     storageFault := None;
     database := ∅ |}.

Definition clickWithUrl : Payload :=
  NotificationData (Some "https://example.com/target") [("title", "Hello")].

Definition clickWithoutUrl : Payload :=
  NotificationData None [("title", "Hello")].

Definition clickWithEmptyUrl : Payload :=
  NotificationData (Some "") [("title", "Hello")].

Definition redirectTarget : Payload := RedirectUrl "https://example.com/landing".

(** A messenger on which earlier code left handlers: one for a kind that
    [MainHelper] binds too, one for a kind of its own. *)
Definition staleMessenger : WorkerMessenger :=
  {| replies :=
       {[ NotificationClicked := onNotificationDismissed;
          OtherWorkerMessengerCommand "worker.version" := onNotificationDisplayed ]} |}.

(** ** The other helpers of [MainHelper] *)

(** *** JavaScript values *)

(** The values the objects of the configuration and of a reply hold: the
    primitives, with integers for numbers, functions by name, and other
    objects (arrays among them) by reference. *)
Inductive JsValue : Type :=
| JsUndefined
| JsNull
| JsBool (b : bool)
| JsNumber (n : Z)
| JsString (s : string)
| JsFunction (f : nat)
| JsObject (ref : nat).

#[global] Instance JsValue_eq_dec : EqDecision JsValue.
Proof. solve_decision. Defined.

(** Truthiness: [undefined], [null], [false], [0] and the empty string are
    falsy, every function and object is truthy. *)
Definition js_truthy (v : JsValue) : bool :=
  match v with
  | JsUndefined | JsNull => false
  | JsBool b => b
  | JsNumber n => negb (n =? 0)%Z
  | JsString s => negb (String.eqb s "")
  | JsFunction _ | JsObject _ => true
  end.

(** A property read [o[key]]: [undefined] for a key the object lacks. *)
Definition js_get (o : gmap string JsValue) (key : string) : JsValue :=
  default JsUndefined (o !! key).

(** How a synchronous call ends: it returns, or it throws. *)
Inductive Completion (A : Type) : Type :=
| Normal (value : A)
| Throw (error : JsError).
Arguments Normal {A} value.
Arguments Throw {A} error.

(** *** [getNotificationTypeFromOptIn] (lines 55-61) *)

(** What [OneSignal.getSubscription()] hands over: a boolean, or [null] or
    [undefined] when nothing was stored. *)
Inductive OptIn : Type :=
| OptInUndefined
| OptInNull
| OptInBool (b : bool).

(** [isOptedIn == true] and [isOptedIn == null], the loose comparisons:
    only [true] equals [true]; [null] and [undefined] equal [null], a
    boolean does not. *)
Definition loosely_true (isOptedIn : OptIn) : bool :=
  match isOptedIn with OptInBool true => true | _ => false end.

Definition loosely_null (isOptedIn : OptIn) : bool :=
  match isOptedIn with OptInUndefined | OptInNull => true | OptInBool _ => false end.

Definition getNotificationTypeFromOptIn (isOptedIn : OptIn) : Z :=
  if loosely_true isOptedIn || loosely_null isOptedIn then 1 else -2.

(** *** The session flag of the HTTP prompt (lines 74-83) *)

(** [sessionStorage]: string keys to string values. *)
Definition markHttpPopoverShown (sessionStorage : gmap string string) : gmap string string :=
  <["ONESIGNAL_HTTP_PROMPT_SHOWN" := "true"]> sessionStorage.

(** [sessionStorage.getItem(...) == 'true']; [getItem] gives [null] for a
    key that is not there, and [null] is not loosely equal to a string. *)
Definition isHttpPromptAlreadyShown (sessionStorage : gmap string string) : bool :=
  match sessionStorage !! "ONESIGNAL_HTTP_PROMPT_SHOWN" with
  | Some item => String.eqb item "true"
  | None => false
  end.

(** *** The prompt options (lines 218-271) *)

(** [legacyParams], in the order of the object literal, which is the order
    [Object.keys] lists it in. *)
Definition legacyParams : list (string * string) :=
  [ ("exampleNotificationTitleDesktop", "exampleNotificationTitle");
    ("exampleNotificationMessageDesktop", "exampleNotificationMessage");
    ("exampleNotificationTitleMobile", "exampleNotificationTitle");
    ("exampleNotificationMessageMobile", "exampleNotificationMessage") ].

Definition allowedPromptOptions : list string :=
  [ "autoAcceptTitle";
    "siteName";
    "autoAcceptTitle";
    "subscribeText";
    "showGraphic";
    "actionMessage";
    "exampleNotificationTitle";
    "exampleNotificationMessage";
    "exampleNotificationCaption";
    "acceptButtonText";
    "cancelButtonText";
    "timeout" ].

(** One round of the loop over [legacyParams]:
    [if (promptOptions[legacyParamKey])
       promptOptions[legacyParamValue] = promptOptions[legacyParamKey]]. *)
Definition copyLegacyParam (promptOptions : gmap string JsValue)
    (legacyParam : string * string) : gmap string JsValue :=
  let legacyParamKey := legacyParam.1 in
  let legacyParamValue := legacyParam.2 in
  if js_truthy (js_get promptOptions legacyParamKey)
  then <[legacyParamValue := js_get promptOptions legacyParamKey]> promptOptions
  else promptOptions.

(** The object [hash]: string keys to encoded values, in the order the keys
    were first set, which is the order [Object.keys] lists them in (none of
    the keys is an array index). *)
Fixpoint object_set (key value : string) (o : list (string * string)) : list (string * string) :=
  match o with
  | [] => [(key, value)]
  | (k, v) :: o' =>
      if String.eqb k key then (k, value) :: o' else (k, v) :: object_set key value o'
  end.

Fixpoint object_get (key : string) (o : list (string * string)) : option string :=
  match o with
  | [] => None
  | (k, v) :: o' => if String.eqb k key then Some v else object_get key o'
  end.

Definition Object_keys (o : list (string * string)) : list string := map fst o.

(** [value || value === false || value === ''] *)
Definition isPromptOptionKept (value : JsValue) : bool :=
  js_truthy value || bool_decide (value = JsBool false) || bool_decide (value = JsString "").

(** One round of the loop over [allowedPromptOptions]. *)
Definition hashPromptOption (encodeURIComponent : JsValue → string)
    (promptOptions : gmap string JsValue)
    (hash : list (string * string)) (key : string) : list (string * string) :=
  let value := js_get promptOptions key in
  let encoded_value := encodeURIComponent value in
  if isPromptOptionKept value then object_set key encoded_value hash else hash.

(** [getPromptOptionsPostHash], on [OneSignal.config.userConfig.promptOptions]
    ([None] when it is not set): the hash it returns ([None] for
    [undefined], the [var] that was never assigned) and the prompt options
    as the loop over the legacy parameters leaves them.  [encodeURIComponent]
    is the built-in, taken as it comes. *)
Definition getPromptOptionsPostHash (encodeURIComponent : JsValue → string)
    (promptOptions : option (gmap string JsValue)) :
    option (list (string * string)) * option (gmap string JsValue) :=
  match promptOptions with
  | Some promptOptions =>
      let promptOptions := foldl copyLegacyParam promptOptions legacyParams in
      let hash := foldl (hashPromptOption encodeURIComponent promptOptions) [] allowedPromptOptions in
      (Some hash, Some promptOptions)
  | None => (None, None)
  end.

(** [getPromptOptionsQueryString]: the string, and the prompt options as
    they are left. *)
Definition getPromptOptionsQueryString (encodeURIComponent : JsValue → string)
    (promptOptions : option (gmap string JsValue)) : string * option (gmap string JsValue) :=
  let promptOptionsStr := "" in
  match promptOptions with
  | Some _ =>
      let run := getPromptOptionsPostHash encodeURIComponent promptOptions in
      let hash := default [] run.1 in
      (foldl (λ promptOptionsStr key,
                let value := default "" (object_get key hash) in
                (promptOptionsStr ++ "&" ++ key ++ "=" ++ value)%string)
             promptOptionsStr (Object_keys hash),
       run.2)
  | None => (promptOptionsStr, promptOptions)
  end.

(** The query string, read off the entries of the hash. *)
Definition renderHash (hash : list (string * string)) : string :=
  foldr (λ entry rest, ("&" ++ entry.1 ++ "=" ++ entry.2 ++ rest)%string) "" hash.


(** *** [fixWordpressManifestIfMisplaced] (lines 34-49) *)

(** A [link[rel=manifest]] element: the node and its [href]. *)
Record ManifestLink : Type := { link_node : nat; link_href : string }.

(** [head.insertBefore(manifest, head.children[0])], seen on the element
    children of [head]: the node leaves the place it had among them, if it
    had one, and becomes the first child (also when it was the first child,
    and when [head] had no child). *)
Definition insertBeforeFirst (manifest : nat) (children : list nat) : list nat :=
  manifest :: filter (λ child, child ≠ manifest) children.

(** What [null.insertBefore] throws. *)
Definition typeError : JsError := {| message_of := "TypeError" |}.

(** One round of the loop over the manifests, on the element children of
    [head] ([None] when the document has no [head]) and the nodes moved so
    far, one [log.info] line each. *)
Definition moveIfOneSignalManifest (contains : string → string → bool)
    (state : Completion (option (list nat) * list nat)) (manifest : ManifestLink) :
    Completion (option (list nat) * list nat) :=
  match state with
  | Throw e => Throw e
  | Normal (head, moved) =>
      let url := link_href manifest in
      if contains url "gcm_sender_id" then
        match head with
        | Some children =>
            Normal (Some (insertBeforeFirst (link_node manifest) children),
                    moved ++ [link_node manifest])
        | None => Throw typeError
        end
      else Normal (head, moved)
  end.

(** [fixWordpressManifestIfMisplaced], on the static list
    [document.querySelectorAll('link[rel=manifest]')], in document order, and
    the element children of [head].  [contains] is the helper of [../utils]. *)
Definition fixWordpressManifestIfMisplaced (contains : string → string → bool)
    (manifests : list ManifestLink) (head : option (list nat)) :
    Completion (option (list nat) * list nat) :=
  if (length manifests <=? 1)%nat then Normal (head, [])
  else foldl (moveIfOneSignalManifest contains) (Normal (head, [])) manifests.

(** The nodes of the manifests that [contains] picks, in document order. *)
Definition oneSignalManifests (contains : string → string → bool)
    (manifests : list ManifestLink) : list nat :=
  map link_node (filter (λ manifest, contains (link_href manifest) "gcm_sender_id" = true) manifests).

(** *** [showNotifyButton] (lines 101-125) *)

(** [new Bell(config)], kept by the configuration it was built from. *)
Record Bell : Type := { bell_config : gmap string JsValue }.

Inductive ButtonEffect : Type :=
| BellCreate (config : gmap string JsValue)     (* notifyButton.create() *)
| LogPredicateFalse.                             (* the log.debug line *)

(** What [showNotifyButton] reads and writes.  [callFunction f] is what a
    call of the function [f] comes to: it throws, or it returns a value, which
    [Promise.resolve(...)] settles as given. *)
Record ButtonWorld : Type := {
  isBrowser : bool;                                        (* Environment.isBrowser() *)
  OneSignal_notifyButton : option Bell;                    (* OneSignal.notifyButton *)
  userConfig_notifyButton : option (gmap string JsValue);  (* ...userConfig.notifyButton *)
  userConfig_bell : option (gmap string JsValue);          (* ...userConfig.bell *)
  callFunction : nat → Completion (Outcome JsValue)
}.

Record ButtonRun : Type := {
  after : ButtonWorld;
  did : list ButtonEffect;
  thrown : option JsError
}.

(** [objectAssign(target, source)]: the own properties of [source] are set
    on [target]. *)
Definition objectAssign (target source : gmap string JsValue) : gmap string JsValue :=
  source ∪ target.

(** [OneSignal.notifyButton = new Bell(...userConfig.notifyButton);
     OneSignal.notifyButton.create();] *)
Definition createBell (w : ButtonWorld) : ButtonRun :=
  let config := default ∅ (userConfig_notifyButton w) in
  {| after := {| isBrowser := isBrowser w;
                 OneSignal_notifyButton := Some {| bell_config := config |};
                 userConfig_notifyButton := userConfig_notifyButton w;
                 userConfig_bell := userConfig_bell w;
                 callFunction := callFunction w |};
     did := [BellCreate config];
     thrown := None |}.

Definition showNotifyButton (w : ButtonWorld) : ButtonRun :=
  if isBrowser w && negb (bool_decide (is_Some (OneSignal_notifyButton w))) then
    let notifyButton := default ∅ (userConfig_notifyButton w) in
    let merged :=
      match userConfig_bell w with
      | Some bell =>
          let bell := objectAssign bell notifyButton in
          let notifyButton := objectAssign notifyButton bell in
          (Some bell, notifyButton)
      | None => (None, notifyButton)
      end in
    let w := {| isBrowser := isBrowser w;
                OneSignal_notifyButton := OneSignal_notifyButton w;
                userConfig_notifyButton := Some merged.2;
                userConfig_bell := merged.1;
                callFunction := callFunction w |} in
    let displayPredicate := js_get merged.2 "displayPredicate" in
    match displayPredicate with
    | JsFunction f =>
        match callFunction w f with
        | Throw e => {| after := w; did := []; thrown := Some e |}
        | Normal (Fulfilled predicateValue) =>
            if bool_decide (predicateValue ≠ JsBool false)
            then createBell w
            else {| after := w; did := [LogPredicateFalse]; thrown := None |}
        | Normal _ => {| after := w; did := []; thrown := None |}
        end
    | _ => createBell w
    end
  else {| after := w; did := []; thrown := None |}.

(** Sample inputs. *)
Definition sampleEncode (v : JsValue) : string :=
  match v with
  | JsString s => s
  | JsBool true => "true"
  | JsBool false => "false"
  | _ => "other"
  end.

Definition sampleContains (url needle : string) : bool :=
  match String.index 0 needle url with Some _ => true | None => false end.

Definition sampleManifests : list ManifestLink :=
  [ {| link_node := 11; link_href := "https://example.com/manifest.json" |};
    {| link_node := 12; link_href := "https://example.com/sdk/manifest.json?gcm_sender_id=1" |};
    {| link_node := 13; link_href := "https://example.com/wp/manifest.json?gcm_sender_id=2" |} ].

Definition sampleButtonWorld (predicateValue : JsValue) : ButtonWorld :=
  {| isBrowser := true;
     OneSignal_notifyButton := None;
     userConfig_notifyButton :=
       Some {[ "enable" := JsBool true; "displayPredicate" := JsFunction 1 ]};
     userConfig_bell :=
       Some {[ "enable" := JsBool false; "size" := JsString "large" ]};
     callFunction := λ _, Normal (Fulfilled predicateValue) |}.

(** *** [checkAndTriggerNotificationPermissionChanged] (lines 85-99) *)

(** What the check reads and writes: the [Options] table of the store, by
    key, and how its collaborators settle: the read and the write of the
    store, [OneSignal.getNotificationPermission()] and
    [EventHelper.triggerNotificationPermissionChanged()]. *)
Record PermissionWorld : Type := {
  optionsTable : gmap string string;
  optionsReadFault : option JsError;
  optionsWriteFault : option JsError;
  notificationPermission : Outcome string;
  permissionChangedTrigger : Outcome unit
}.

Inductive PermissionEffect : Type :=
| TriggerPermissionChanged
| PutNotificationPermission (value : string).

#[global] Instance PermissionEffect_eq_dec : EqDecision PermissionEffect.
Proof. solve_decision. Defined.

(** [Database.get('Options', 'notificationPermission')]: the stored value,
    or nothing. *)
Definition getPreviousPermission (w : PermissionWorld) : Outcome (option string) :=
  match optionsReadFault w with
  | Some e => Rejected e
  | None => Fulfilled (optionsTable w !! "notificationPermission")
  end.

(** The check, followed to the end of the promise chain it starts: the
    [Options] table it leaves and what it did, in order.  [Promise.all] is
    fulfilled when both promises are; otherwise the callback never runs. *)
Definition checkAndTriggerNotificationPermissionChanged (w : PermissionWorld) :
    gmap string string * list PermissionEffect :=
  match getPreviousPermission w, notificationPermission w with
  | Fulfilled previousPermission, Fulfilled currentPermission =>
      if bool_decide (previousPermission ≠ Some currentPermission) then
        match permissionChangedTrigger w with
        | Fulfilled _ =>
            (match optionsWriteFault w with
             | None => <["notificationPermission" := currentPermission]> (optionsTable w)
             | Some _ => optionsTable w
             end,
             [TriggerPermissionChanged; PutNotificationPermission currentPermission])
        | _ => (optionsTable w, [TriggerPermissionChanged])
        end
      else (optionsTable w, [])
  | _, _ => (optionsTable w, [])
  end.

(** The world with the [Options] table a run left. *)
Definition afterPermissionCheck (w : PermissionWorld) : PermissionWorld :=
  {| optionsTable := (checkAndTriggerNotificationPermissionChanged w).1;
     optionsReadFault := optionsReadFault w;
     optionsWriteFault := optionsWriteFault w;
     notificationPermission := notificationPermission w;
     permissionChangedTrigger := permissionChangedTrigger w |}.

(** *** [getAppId] and [getNotificationIcons] (lines 127-140, 279-286) *)

(** A [Uuid], by its [value]: a string, or nothing. *)
Record Uuid : Type := { uuid_value : option string }.

(** The object [response.json()] gives: its [errors] and the rest. *)
Record IconsReply : Type := {
  errors : JsValue;
  icons : gmap string string
}.

(** What the two functions read, and how their collaborators settle:
    [Database.get('Ids', 'appId')], the constructor of [Uuid],
    [SdkEnvironment.getOneSignalApiUrl().toString()], [fetch] and
    [response.json()]. *)
Record IconsWorld : Type := {
  config_appId : option Uuid;
  ids_appId : Outcome (option string);
  new_Uuid : option string → Completion Uuid;
  apiUrl : string;
  fetch : string → Outcome nat;
  response_json : nat → Outcome IconsReply
}.

Inductive IconsEffect : Type :=
| DatabaseGetAppId
| Fetch (url : string)
| ResponseJson (response : nat)
| LogError (url : string).

#[global] Instance IconsEffect_eq_dec : EqDecision IconsEffect.
Proof. solve_decision. Defined.

(** Why the promise of [getNotificationIcons] is rejected: by its own two
    [throw]s, or by what a collaborator threw or was rejected with. *)
Inductive IconsFailure : Type :=
| MissingAppId                   (* new InvalidStateError(InvalidStateReason.MissingAppId) *)
| FailedToGetIcons               (* new Error('Failed to get notification icons.') *)
| Upstream (e : JsError).

Inductive IconsOutcome (A : Type) : Type :=
| IconsFulfilled (value : A)
| IconsRejected (reason : IconsFailure)
| IconsPending.
Arguments IconsFulfilled {A} value.
Arguments IconsRejected {A} reason.
Arguments IconsPending {A}.

Definition getAppId (w : IconsWorld) : IconsOutcome Uuid * list IconsEffect :=
  match config_appId w with
  | Some appId => (IconsFulfilled appId, [])
  | None =>
      match ids_appId w with
      | Fulfilled uuid =>
          match new_Uuid w uuid with
          | Normal appId => (IconsFulfilled appId, [DatabaseGetAppId])
          | Throw e => (IconsRejected (Upstream e), [DatabaseGetAppId])
          end
      | Rejected e => (IconsRejected (Upstream e), [DatabaseGetAppId])
      | Pending => (IconsPending, [DatabaseGetAppId])
      end
  end.

Definition getNotificationIcons (w : IconsWorld) : IconsOutcome IconsReply * list IconsEffect :=
  match getAppId w with
  | (IconsFulfilled appId, did) =>
      if negb (truthy (uuid_value appId)) then (IconsRejected MissingAppId, did)
      else
        let url := (apiUrl w ++ "/apps/" ++ default "" (uuid_value appId) ++ "/icon")%string in
        match fetch w url with
        | Fulfilled response =>
            match response_json w response with
            | Fulfilled data =>
                if js_truthy (errors data)
                then (IconsRejected FailedToGetIcons,
                      did ++ [Fetch url; ResponseJson response; LogError url])
                else (IconsFulfilled data, did ++ [Fetch url; ResponseJson response])
            | Rejected e =>
                (IconsRejected (Upstream e), did ++ [Fetch url; ResponseJson response])
            | Pending => (IconsPending, did ++ [Fetch url; ResponseJson response])
            end
        | Rejected e => (IconsRejected (Upstream e), did ++ [Fetch url])
        | Pending => (IconsPending, did ++ [Fetch url])
        end
  | (IconsRejected e, did) => (IconsRejected e, did)
  | (IconsPending, did) => (IconsPending, did)
  end.

Definition isFetch (e : IconsEffect) : bool :=
  match e with Fetch _ => true | _ => false end.

(** Sample worlds. *)
Definition samplePermissionWorld : PermissionWorld :=
  {| optionsTable := {[ "notificationPermission" := "default" ]};
     optionsReadFault := None;
     optionsWriteFault := None;
     notificationPermission := Fulfilled "granted";
     permissionChangedTrigger := Fulfilled tt |}.

Definition sampleIconsWorld (appId : option Uuid) (stored : option string)
    (reply : IconsReply) : IconsWorld :=
  {| config_appId := appId;
     ids_appId := Fulfilled stored;
     new_Uuid := λ uuid, Normal {| uuid_value := uuid |};
     apiUrl := "https://onesignal.com/api/v1";
     fetch := λ _, Fulfilled 7;
     response_json := λ _, Fulfilled reply |}.

(** ** Runs of the handlers *)

Ltac unfold_async :=
  unfold mbind, mret, Async_bind, Async_ret, new_Promise, message, gets, emit,
    log_debug, Event_trigger, SdkEnvironment_getWindowEnv, OneSignal_proxyFrame,
    OneSignal_getListeners, resolve, unresolved in *.

(** Local mode: the count is the length of the local listener array, and
    nothing is sent. *)
Lemma count_local (w : World) :
  windowEnv w ≠ OneSignalProxyFrame →
  clickedListenerCallbackCount w =
    {| outcome := Fulfilled (Z.of_nat (length (listeners w NOTIFICATION_CLICKED)));
       final := w; emitted := [] |}.
Proof.
  intros Hne. unfold clickedListenerCallbackCount. unfold_async. simpl.
  destruct (decide (windowEnv w = OneSignalProxyFrame)) as [He | _]; [contradiction | reflexivity].
Qed.

(** Delegated mode with a frame: one query is sent, and the promise settles
    as the controlling frame answers. *)
Lemma count_delegated (w : World) (pf : ProxyFrame) :
  windowEnv w = OneSignalProxyFrame →
  proxyFrame w = Some pf →
  clickedListenerCallbackCount w =
    {| outcome :=
         match remote (messenger pf) GET_EVENT_LISTENER_COUNT (EventNameData NOTIFICATION_CLICKED) with
         | Some reply => Fulfilled (reply_data reply)
         | None => Pending
         end;
       final := w;
       emitted := [PostmamMessage GET_EVENT_LISTENER_COUNT (EventNameData NOTIFICATION_CLICKED) true] |}.
Proof.
  intros He Hpf. unfold clickedListenerCallbackCount. unfold_async. simpl.
  destruct (decide (windowEnv w = OneSignalProxyFrame)) as [_ | Hne]; [| contradiction].
  simpl. rewrite Hpf. simpl.
  destruct (remote (messenger pf) _ _); reflexivity.
Qed.

(** Delegated mode without a frame: [resolve] is never called. *)
Lemma count_frameless (w : World) :
  windowEnv w = OneSignalProxyFrame →
  proxyFrame w = None →
  clickedListenerCallbackCount w = {| outcome := Pending; final := w; emitted := [] |}.
Proof.
  intros He Hpf. unfold clickedListenerCallbackCount. unfold_async. simpl.
  destruct (decide (windowEnv w = OneSignalProxyFrame)) as [_ | Hne]; [| contradiction].
  simpl. rewrite Hpf. reflexivity.
Qed.

(** Resolving the count leaves the world as it is and emits only messages. *)
Lemma count_frame (w : World) :
  final (clickedListenerCallbackCount w) = w ∧
  Forall (λ e, isPostmamMessage e = true) (emitted (clickedListenerCallbackCount w)).
Proof.
  destruct (decide (windowEnv w = OneSignalProxyFrame)) as [He | Hne].
  - destruct (proxyFrame w) as [pf |] eqn:Hpf.
    + rewrite (count_delegated w pf He Hpf). simpl. split; [reflexivity |].
      repeat constructor.
    + rewrite (count_frameless w He Hpf). simpl. split; [reflexivity | constructor].
  - rewrite (count_local w Hne). simpl. split; [reflexivity | constructor].
Qed.

(** The three ways a run of the clicked handler goes, by the outcome of the
    count. *)
Lemma clicked_run_zero (d : Payload) (w : World) :
  outcome (clickedListenerCallbackCount w) = Fulfilled 0%Z →
  onNotificationClicked d w =
    let r := Database_put "NotificationOpened" (clickedEntry d w) w in
    {| outcome := outcome r; final := final r;
       emitted := emitted (clickedListenerCallbackCount w)
                  ++ LogDebug LogClickedNoListeners :: emitted r |}.
Proof.
  intros Hc. destruct (count_frame w) as [Hf _].
  unfold onNotificationClicked, clickedEntry.
  unfold mbind at 1. unfold Async_bind at 1. cbv zeta. rewrite Hc, Hf. simpl.
  unfold_async. simpl.
  destruct (truthy (data_url d)); simpl;
    unfold Database_put; destruct (storageFault w); reflexivity.
Qed.

Lemma clicked_run_nonzero (d : Payload) (w : World) (c : Z) :
  outcome (clickedListenerCallbackCount w) = Fulfilled c →
  c ≠ 0%Z →
  onNotificationClicked d w =
    {| outcome := Fulfilled tt; final := w;
       emitted := emitted (clickedListenerCallbackCount w)
                  ++ [EventTrigger NOTIFICATION_CLICKED d] |}.
Proof.
  intros Hc Hne. destruct (count_frame w) as [Hf _].
  unfold onNotificationClicked.
  unfold mbind at 1. unfold Async_bind at 1. cbv zeta. rewrite Hc, Hf.
  destruct (Z.eqb_spec c 0) as [-> | _]; [contradiction |].
  reflexivity.
Qed.

Lemma clicked_run_unsettled (d : Payload) (w : World) :
  outcome (clickedListenerCallbackCount w) = Pending →
  onNotificationClicked d w =
    {| outcome := Pending; final := w;
       emitted := emitted (clickedListenerCallbackCount w) |}.
Proof.
  intros Hc. destruct (count_frame w) as [Hf _].
  unfold onNotificationClicked.
  unfold mbind at 1. unfold Async_bind at 1. cbv zeta. rewrite Hc, Hf.
  reflexivity.
Qed.

(** The count is never rejected. *)
Lemma count_not_rejected (w : World) (e : JsError) :
  outcome (clickedListenerCallbackCount w) ≠ Rejected e.
Proof.
  destruct (decide (windowEnv w = OneSignalProxyFrame)) as [He | Hne].
  - destruct (proxyFrame w) as [pf |] eqn:Hpf.
    + rewrite (count_delegated w pf He Hpf). simpl.
      destruct (remote (messenger pf) _ _); discriminate.
    + rewrite (count_frameless w He Hpf). discriminate.
  - rewrite (count_local w Hne). discriminate.
Qed.

(** Messages are neither broadcasts nor writes. *)
Lemma messages_only (l : list Effect) :
  Forall (λ e, isPostmamMessage e = true) l →
  filter (λ e, isEventTrigger e = true) l = [] ∧
  filter (λ e, isDatabasePut e = true) l = [] ∧
  filter (λ e, isPostmamMessage e = true) l = l.
Proof.
  induction 1 as [| e l He _ (IH1 & IH2 & IH3)]; [done |].
  destruct e; try discriminate He.
  rewrite !filter_cons. simpl.
  repeat case_decide; try done.
  by rewrite IH1, IH2, IH3.
Qed.

Lemma count_broadcasts (w : World) :
  filter (λ e, isEventTrigger e = true) (emitted (clickedListenerCallbackCount w)) = [].
Proof. destruct (count_frame w) as [_ H]. by apply messages_only in H as (? & ? & ?). Qed.

Lemma count_puts (w : World) :
  filter (λ e, isDatabasePut e = true) (emitted (clickedListenerCallbackCount w)) = [].
Proof. destruct (count_frame w) as [_ H]. by apply messages_only in H as (? & ? & ?). Qed.

(** What the store holds after a write. *)
Lemma put_rows (table : string) (entry : InboxEntry) (w : World) :
  storageFault w = None →
  rows table (final (Database_put table entry w)) = rows table w ++ [entry].
Proof.
  intros Hs. unfold Database_put. rewrite Hs. simpl.
  unfold rows at 1. simpl. by rewrite lookup_insert_eq.
Qed.

Lemma put_fault (table : string) (entry : InboxEntry) (w : World) (e : JsError) :
  storageFault w = Some e →
  Database_put table entry w =
    {| outcome := Rejected e; final := w; emitted := [DatabasePut table entry] |}.
Proof. intros Hs. unfold Database_put. by rewrite Hs. Qed.

Lemma put_emitted (table : string) (entry : InboxEntry) (w : World) :
  emitted (Database_put table entry w) = [DatabasePut table entry].
Proof. unfold Database_put. by destruct (storageFault w). Qed.

(** Observations on the zero-listener path. *)
Lemma clicked_zero_observed (d : Payload) (w : World) :
  outcome (clickedListenerCallbackCount w) = Fulfilled 0%Z →
  broadcasts (onNotificationClicked d w) = [] ∧
  putsIssued (onNotificationClicked d w) = [DatabasePut "NotificationOpened" (clickedEntry d w)] ∧
  final (onNotificationClicked d w) = final (Database_put "NotificationOpened" (clickedEntry d w) w) ∧
  outcome (onNotificationClicked d w) = outcome (Database_put "NotificationOpened" (clickedEntry d w) w).
Proof.
  intros Hc. rewrite (clicked_run_zero d w Hc). cbv zeta.
  unfold broadcasts, putsIssued. cbn [emitted final outcome].
  rewrite put_emitted, !filter_app, count_broadcasts, count_puts.
  rewrite !filter_cons, !filter_nil. cbn [isEventTrigger isDatabasePut app].
  repeat case_decide; done.
Qed.

(** Observations on the path with listeners. *)
Lemma clicked_nonzero_observed (d : Payload) (w : World) (c : Z) :
  outcome (clickedListenerCallbackCount w) = Fulfilled c →
  c ≠ 0%Z →
  broadcasts (onNotificationClicked d w) = [EventTrigger NOTIFICATION_CLICKED d] ∧
  putsIssued (onNotificationClicked d w) = [] ∧
  final (onNotificationClicked d w) = w ∧
  outcome (onNotificationClicked d w) = Fulfilled tt.
Proof.
  intros Hc Hne. rewrite (clicked_run_nonzero d w c Hc Hne).
  unfold broadcasts, putsIssued. cbn [emitted final outcome].
  rewrite !filter_app, count_broadcasts, count_puts.
  rewrite !filter_cons, !filter_nil. cbn [isEventTrigger isDatabasePut app].
  repeat case_decide; done.
Qed.

(** A click is never both broadcast and stored. *)
Lemma clicked_never_both (d : Payload) (w : World) :
  clickedBroadcast d w && clickedStored d w = false.
Proof.
  unfold clickedBroadcast, clickedStored, inboxAppended.
  destruct (outcome (clickedListenerCallbackCount w)) as [c | e |] eqn:Hc.
  - destruct (decide (c = 0%Z)) as [-> | Hne].
    + destruct (clicked_zero_observed d w Hc) as (Hb & _).
      rewrite Hb. by rewrite bool_decide_eq_false_2.
    + destruct (clicked_nonzero_observed d w c Hc Hne) as (_ & _ & Hf & _).
      rewrite Hf, drop_all. apply andb_false_r.
  - by destruct (count_not_rejected w e).
  - rewrite (clicked_run_unsettled d w Hc). cbn [final].
    rewrite drop_all. apply andb_false_r.
Qed.

(** On the zero-listener path over a sound store the inbox grows by the
    entry of the click, and by nothing else. *)
Lemma clicked_zero_appended (d : Payload) (w : World) :
  outcome (clickedListenerCallbackCount w) = Fulfilled 0%Z →
  storageFault w = None →
  inboxAppended w (onNotificationClicked d w) = [clickedEntry d w].
Proof.
  intros Hc Hs. destruct (clicked_zero_observed d w Hc) as (_ & _ & Hf & _).
  unfold inboxAppended. rewrite Hf, put_rows by done.
  apply drop_app_length.
Qed.

(** A command bound by [establishServiceWorkerChannel] is dispatched to the
    handler of its kind. *)
Lemma dispatch_established (m : WorkerMessenger) (command : WorkerMessengerCommand)
    (d : Payload) :
  WorkerMessenger_dispatch (establishServiceWorkerChannel m) command d
    = match handlerOf command with
      | Some callback => callback d
      | None => mret tt
      end.
Proof.
  unfold WorkerMessenger_dispatch, establishServiceWorkerChannel,
    WorkerMessenger_on, WorkerMessenger_off. cbn [replies].
  destruct command; by simplify_map_eq.
Qed.

(** ** Worked runs *)

(** A click without [url] on a page without listeners is stored under the
    page's own URL. *)
Example stored_under_document_url :
  inboxEntryWritten clickWithoutUrl hostPage
    = Some {| url := Some "https://example.com/page";
              data := clickWithoutUrl;
              timestamp := 1500000000000 |}.
Proof. vm_compute. reflexivity. Qed.

(** A click with a [url] is stored under that URL. *)
Example stored_under_payload_url :
  rows "NotificationOpened" (final (onNotificationClicked clickWithUrl hostPage))
    = [{| url := Some "https://example.com/target";
          data := clickWithUrl;
          timestamp := 1500000000000 |}].
Proof. vm_compute. reflexivity. Qed.

(** With two listeners the click is broadcast and the inbox stays empty. *)
Example broadcast_to_listeners :
  emitted (onNotificationClicked clickWithUrl (listeningPage 2))
    = [EventTrigger NOTIFICATION_CLICKED clickWithUrl] ∧
  rows "NotificationOpened" (final (onNotificationClicked clickWithUrl (listeningPage 2))) = [].
Proof. split; vm_compute; reflexivity. Qed.

(** In the proxy frame the controlling frame's count decides, not the local
    one: five remote listeners and none locally give a broadcast, no remote
    listener and three locally give an inbox entry. *)
Example remote_count_decides :
  effectsOf (onNotificationClicked clickWithUrl (proxyFrameWindow 0 (Some (answeringFrame 5))))
    = [PostmamMessage GET_EVENT_LISTENER_COUNT (EventNameData NOTIFICATION_CLICKED) true;
       EventTrigger NOTIFICATION_CLICKED clickWithUrl] ∧
  effectsOf (onNotificationClicked clickWithUrl (proxyFrameWindow 3 (Some (answeringFrame 0))))
    = [PostmamMessage GET_EVENT_LISTENER_COUNT (EventNameData NOTIFICATION_CLICKED) true;
       DatabasePut "NotificationOpened"
         {| url := Some "https://example.com/target";
            data := clickWithUrl;
            timestamp := 1500000000000 |}].
Proof. split; vm_compute; reflexivity. Qed.

(** A second write lands behind the first. *)
Example inbox_grows_in_order :
  rows "NotificationOpened"
    (final (onNotificationClicked clickWithoutUrl
              (final (onNotificationClicked clickWithUrl hostPage))))
    = [clickedEntry clickWithUrl hostPage; clickedEntry clickWithoutUrl hostPage].
Proof. vm_compute. reflexivity. Qed.

(** ** The claims *)

(** C1, as stated, fails: a click delivered to the proxy frame whose
    controlling frame never answers the presence query is neither broadcast
    nor stored, and so is a click with no listener that meets a storage
    fault. *)
Lemma clicked_neither_outcome :
  (clickedBroadcast clickWithUrl (proxyFrameWindow 2 (Some silentFrame)) = false ∧
   clickedStored clickWithUrl (proxyFrameWindow 2 (Some silentFrame)) = false ∧
   exactlyOneOutcome clickWithUrl (proxyFrameWindow 2 (Some silentFrame)) = false) ∧
  (clickedBroadcast clickWithUrl faultyPage = false ∧
   clickedStored clickWithUrl faultyPage = false ∧
   exactlyOneOutcome clickWithUrl faultyPage = false).
Proof. repeat split; vm_compute; reflexivity. Qed.

(** C1 (amended).  For every clicked command whose listener count resolves,
    to [c], exactly one of the two outcomes occurs: when [c] is not 0 the
    event is broadcast, once, and the inbox is left as it was; when [c] is 0
    and the store takes the write, exactly one entry is appended to the
    inbox and nothing is broadcast. *)
Theorem clicked_exactly_one_when_settled (d : Payload) (w : World) (c : Z) :
  outcome (clickedListenerCallbackCount w) = Fulfilled c →
  (c = 0%Z → storageFault w = None) →
  exactlyOneOutcome d w = true ∧
  (c = 0%Z →
     broadcasts (onNotificationClicked d w) = [] ∧
     length (inboxAppended w (onNotificationClicked d w)) = 1) ∧
  (c ≠ 0%Z →
     broadcasts (onNotificationClicked d w) = [EventTrigger NOTIFICATION_CLICKED d] ∧
     inboxAppended w (onNotificationClicked d w) = []).
Proof.
  intros Hc Hs. unfold exactlyOneOutcome, clickedBroadcast, clickedStored.
  destruct (decide (c = 0%Z)) as [-> | Hne].
  - destruct (clicked_zero_observed d w Hc) as (Hb & _).
    pose proof (clicked_zero_appended d w Hc (Hs eq_refl)) as Ha.
    rewrite Hb, Ha. split; [done |]. split; [done | intros []; done].
  - destruct (clicked_nonzero_observed d w c Hc Hne) as (Hb & _ & Hf & _).
    assert (Ha : inboxAppended w (onNotificationClicked d w) = []).
    { unfold inboxAppended. by rewrite Hf, drop_all. }
    rewrite Hb, Ha. split; [| split; [done | done]].
    rewrite bool_decide_eq_true_2 by done. done.
Qed.

Lemma clicked_exactly_one_when_settled_witness :
  outcome (clickedListenerCallbackCount hostPage) = Fulfilled 0%Z ∧
  storageFault hostPage = None ∧
  exactlyOneOutcome clickWithUrl hostPage = true.
Proof.
  split; [reflexivity |]. split; [reflexivity |].
  apply (clicked_exactly_one_when_settled clickWithUrl hostPage 0);
    [reflexivity | intros _; reflexivity].
Defined.

(** C3, as stated, fails: a payload that provides the empty string as its
    [url], met with zero listeners, is stored under the URL of the current
    document and not under its own. *)
Lemma clicked_url_not_verbatim :
  data_url clickWithEmptyUrl = Some "" ∧
  outcome (clickedListenerCallbackCount hostPage) = Fulfilled 0%Z ∧
  ∃ entry,
    inboxEntryWritten clickWithEmptyUrl hostPage = Some entry ∧
    inboxAppended hostPage (onNotificationClicked clickWithEmptyUrl hostPage) = [entry] ∧
    url entry = Some "https://example.com/page" ∧
    url entry ≠ data_url clickWithEmptyUrl.
Proof.
  split; [reflexivity |]. split; [reflexivity |].
  eexists. split; [vm_compute; reflexivity |].
  split; [vm_compute; reflexivity |]. split; [reflexivity | discriminate].
Qed.

(** C3 (amended).  When a clicked command resolves to zero listeners, the
    entry's [url] is the payload's [url] when that is truthy (present and
    not empty), verbatim, and the URL of the current document otherwise;
    the entry carries the payload itself and the current time; over a sound
    store it is the one entry added to the inbox. *)
Theorem clicked_entry_contents (d : Payload) (w : World) :
  outcome (clickedListenerCallbackCount w) = Fulfilled 0%Z →
  ∃ entry,
    inboxEntryWritten d w = Some entry ∧
    url entry = (if truthy (data_url d) then data_url d else Some (location_href w)) ∧
    data entry = d ∧
    timestamp entry = clock w ∧
    (storageFault w = None → inboxAppended w (onNotificationClicked d w) = [entry]).
Proof.
  intros Hc. exists (clickedEntry d w).
  destruct (clicked_zero_observed d w Hc) as (_ & Hp & _).
  unfold inboxEntryWritten. rewrite Hp.
  repeat split. intros Hs. by apply clicked_zero_appended.
Qed.

Lemma clicked_entry_contents_witness :
  outcome (clickedListenerCallbackCount hostPage) = Fulfilled 0%Z ∧
  ∃ entry,
    inboxEntryWritten clickWithUrl hostPage = Some entry ∧
    url entry = Some "https://example.com/target".
Proof.
  split; [reflexivity |].
  destruct (clicked_entry_contents clickWithUrl hostPage eq_refl)
    as (entry & Hw & Hu & _).
  exists entry. split; [exact Hw | exact Hu].
Defined.

(** C10.  A payload whose [url] is present but falsy, met with zero
    listeners, is stored under the URL of the current document: the test is
    on the truthiness of [data.url], not on its presence. *)
Theorem clicked_falsy_url_substituted (d : Payload) (w : World) (u : string) :
  data_url d = Some u →
  truthy (Some u) = false →
  outcome (clickedListenerCallbackCount w) = Fulfilled 0%Z →
  u = "" ∧
  ∃ entry,
    inboxEntryWritten d w = Some entry ∧
    url entry = Some (location_href w) ∧
    (location_href w ≠ u → url entry ≠ data_url d).
Proof.
  intros Hu Ht Hc. split.
  - simpl in Ht. apply negb_false_iff in Ht. by apply String.eqb_eq in Ht.
  - destruct (clicked_entry_contents d w Hc) as (entry & Hw & Hurl & _).
    exists entry. rewrite Hu, Ht in Hurl.
    split; [exact Hw |]. split; [exact Hurl |].
    intros Hne. rewrite Hurl, Hu. congruence.
Qed.

Lemma clicked_falsy_url_substituted_witness :
  data_url clickWithEmptyUrl = Some "" ∧
  truthy (Some "") = false ∧
  outcome (clickedListenerCallbackCount hostPage) = Fulfilled 0%Z ∧
  ∃ entry,
    inboxEntryWritten clickWithEmptyUrl hostPage = Some entry ∧
    url entry = Some (location_href hostPage).
Proof.
  split; [reflexivity |]. split; [reflexivity |]. split; [reflexivity |].
  destruct (clicked_falsy_url_substituted clickWithEmptyUrl hostPage ""
              eq_refl eq_refl eq_refl) as (_ & entry & Hw & Hu & _).
  exists entry. split; [exact Hw | exact Hu].
Defined.

(** The table a call of [establishServiceWorkerChannel] leaves, key by key,
    whatever the table was before. *)
Lemma established_lookup (m : WorkerMessenger) (command : WorkerMessengerCommand) :
  replies (establishServiceWorkerChannel m) !! command = handlerOf command.
Proof.
  unfold establishServiceWorkerChannel, WorkerMessenger_on, WorkerMessenger_off.
  cbn [replies]. destruct command; by simplify_map_eq.
Qed.

(** The clearing is what does it: the four registrations alone, on a
    messenger that holds a handler for a kind of its own, keep that handler
    registered and dispatch to it, where [establishServiceWorkerChannel]
    leaves the kind without handler and drops the command. *)
Lemma clearing_removes_stale_handlers :
  replies (registerWithoutClearing staleMessenger)
    !! OtherWorkerMessengerCommand "worker.version" = Some onNotificationDisplayed ∧
  replies (establishServiceWorkerChannel staleMessenger)
    !! OtherWorkerMessengerCommand "worker.version" = None ∧
  emitted (WorkerMessenger_dispatch (registerWithoutClearing staleMessenger)
             (OtherWorkerMessengerCommand "worker.version") clickWithUrl hostPage)
    = [LogDebug (LogDisplayReceived "https://example.com");
       EventTrigger NOTIFICATION_DISPLAYED clickWithUrl] ∧
  emitted (WorkerMessenger_dispatch (establishServiceWorkerChannel staleMessenger)
             (OtherWorkerMessengerCommand "worker.version") clickWithUrl hostPage)
    = [].
Proof. split_and!; vm_compute; reflexivity. Qed.

(** C2.  Binding the channel first clears every registered handler, so
    binding again replaces the handler set: after any number of calls, from
    any earlier table of handlers, each of the four command kinds has the
    handler of the latest call and no other, every other kind has no handler
    left, the table is the one a single call builds on an empty messenger,
    and a dispatched command runs the handler of its kind alone, or is
    dropped.  A handler registered for any kind before the call is gone after
    it. *)
Theorem rebind_replaces_handlers (n : nat) (m : WorkerMessenger) :
  (∀ command : WorkerMessengerCommand,
     replies (Nat.iter (S n) establishServiceWorkerChannel m) !! command
       = handlerOf command) ∧
  Nat.iter (S n) establishServiceWorkerChannel m
    = establishServiceWorkerChannel {| replies := ∅ |} ∧
  (∀ (command : WorkerMessengerCommand) (d : Payload),
     WorkerMessenger_dispatch (Nat.iter (S n) establishServiceWorkerChannel m) command d
       = match handlerOf command with
         | Some callback => callback d
         | None => mret tt
         end) ∧
  (∀ (command : WorkerMessengerCommand) (callback : Payload → Async unit) (d : Payload),
     replies (establishServiceWorkerChannel (WorkerMessenger_on command callback m)) !! command
       = handlerOf command ∧
     WorkerMessenger_dispatch
       (establishServiceWorkerChannel (WorkerMessenger_on command callback m)) command d
       = match handlerOf command with
         | Some latest => latest d
         | None => mret tt
         end).
Proof.
  assert (Hiter : Nat.iter (S n) establishServiceWorkerChannel m
                  = establishServiceWorkerChannel {| replies := ∅ |}) by reflexivity.
  split_and!.
  - intros command. rewrite Hiter. apply established_lookup.
  - exact Hiter.
  - intros command d. rewrite Hiter. apply dispatch_established.
  - intros command callback d. split.
    + apply established_lookup.
    + apply dispatch_established.
Qed.

(** C4.  A displayed and a dismissed command are broadcast whatever the
    listeners: the broadcaster is called once, with the payload; nothing is
    asked of the store, the world is left as it was, and the handler
    returns. *)
Theorem displayed_dismissed_always_broadcast (d : Payload) (w : World) :
  (broadcasts (onNotificationDisplayed d w) = [EventTrigger NOTIFICATION_DISPLAYED d] ∧
   putsIssued (onNotificationDisplayed d w) = [] ∧
   final (onNotificationDisplayed d w) = w ∧
   outcome (onNotificationDisplayed d w) = Fulfilled tt) ∧
  (broadcasts (onNotificationDismissed d w) = [EventTrigger NOTIFICATION_DISMISSED d] ∧
   putsIssued (onNotificationDismissed d w) = [] ∧
   final (onNotificationDismissed d w) = w ∧
   outcome (onNotificationDismissed d w) = Fulfilled tt).
Proof. repeat split. Qed.

(** C5.  A redirect command asks nothing of the store and never calls the
    broadcaster; apart from its debug line, all it does is send the payload
    over the proxy frame's messenger, without a reply callback, when there is
    a proxy frame. *)
Theorem redirect_only_relays (d : Payload) (w : World) :
  putsIssued (onRedirectPage d w) = [] ∧
  broadcasts (onRedirectPage d w) = [] ∧
  final (onRedirectPage d w) = w ∧
  outcome (onRedirectPage d w) = Fulfilled tt ∧
  effectsOf (onRedirectPage d w) =
    match proxyFrame w with
    | Some _ => [PostmamMessage SERVICEWORKER_COMMAND_REDIRECT (PayloadData d) false]
    | None => []
    end.
Proof.
  unfold onRedirectPage, putsIssued, broadcasts, effectsOf. unfold_async. simpl.
  destruct (proxyFrame w); repeat split.
Qed.

(** C6.  The count is resolved through the controlling frame exactly when
    the window is the proxy frame: in that role the run is settled by the
    frame alone (one query and its answer, or a promise left pending), and in
    every other role the count is the length of the local listener array of
    the clicked event and no message is sent. *)
Theorem presence_mode_by_role (w : World) :
  final (clickedListenerCallbackCount w) = w ∧
  (if decide (windowEnv w = OneSignalProxyFrame)
   then
     ∀ ls : EventName → list Listener,
       outcome (clickedListenerCallbackCount (set_listeners ls w))
         = match proxyFrame w with
           | Some pf =>
               match remote (messenger pf) GET_EVENT_LISTENER_COUNT
                       (EventNameData NOTIFICATION_CLICKED) with
               | Some reply => Fulfilled (reply_data reply)
               | None => Pending
               end
           | None => Pending
           end
   else
     outcome (clickedListenerCallbackCount w)
       = Fulfilled (Z.of_nat (length (listeners w NOTIFICATION_CLICKED))) ∧
     messagesSent (clickedListenerCallbackCount w) = []).
Proof.
  split; [apply count_frame |].
  destruct (decide (windowEnv w = OneSignalProxyFrame)) as [He | Hne].
  - intros ls. destruct (proxyFrame w) as [pf |] eqn:Hpf.
    + by rewrite (count_delegated (set_listeners ls w) pf He Hpf).
    + by rewrite (count_frameless (set_listeners ls w) He Hpf).
  - by rewrite (count_local w Hne).
Qed.

(** C7.  In the proxy frame, with its messenger at hand and a controlling
    frame that answers, resolving the count sends exactly one query and
    resolves with the integer of the reply, whatever the local listeners. *)
Theorem delegated_count_is_reply (w : World) (pf : ProxyFrame) (reply : PostmamReply) :
  windowEnv w = OneSignalProxyFrame →
  proxyFrame w = Some pf →
  remote (messenger pf) GET_EVENT_LISTENER_COUNT (EventNameData NOTIFICATION_CLICKED)
    = Some reply →
  ∀ ls : EventName → list Listener,
    messagesSent (clickedListenerCallbackCount (set_listeners ls w))
      = [PostmamMessage GET_EVENT_LISTENER_COUNT (EventNameData NOTIFICATION_CLICKED) true] ∧
    outcome (clickedListenerCallbackCount (set_listeners ls w))
      = Fulfilled (reply_data reply).
Proof.
  intros He Hpf Hr ls.
  rewrite (count_delegated (set_listeners ls w) pf He Hpf), Hr.
  split; reflexivity.
Qed.

Lemma delegated_count_is_reply_witness :
  windowEnv (proxyFrameWindow 3 (Some (answeringFrame 5))) = OneSignalProxyFrame ∧
  messagesSent (clickedListenerCallbackCount (proxyFrameWindow 3 (Some (answeringFrame 5))))
    = [PostmamMessage GET_EVENT_LISTENER_COUNT (EventNameData NOTIFICATION_CLICKED) true] ∧
  outcome (clickedListenerCallbackCount (proxyFrameWindow 3 (Some (answeringFrame 5))))
    = Fulfilled 5%Z.
Proof.
  split; [reflexivity |].
  exact (delegated_count_is_reply (proxyFrameWindow 3 (Some (answeringFrame 5)))
           (answeringFrame 5) {| reply_data := 5 |} eq_refl eq_refl eq_refl
           (listeners (proxyFrameWindow 3 (Some (answeringFrame 5))))).
Defined.

(** C8.  When the count resolves to zero and the store refuses the write,
    the clicked handler does not catch the fault: its promise is rejected
    with the store's error, and so is the dispatch of the command through the
    bound channel; the write was asked for, nothing is broadcast, and the
    world is left as it was. *)
Theorem clicked_storage_fault_propagates (d : Payload) (w : World) (e : JsError)
    (m : WorkerMessenger) :
  outcome (clickedListenerCallbackCount w) = Fulfilled 0%Z →
  storageFault w = Some e →
  outcome (onNotificationClicked d w) = Rejected e ∧
  outcome (WorkerMessenger_dispatch (establishServiceWorkerChannel m) NotificationClicked d w)
    = Rejected e ∧
  broadcasts (onNotificationClicked d w) = [] ∧
  length (putsIssued (onNotificationClicked d w)) = 1 ∧
  final (onNotificationClicked d w) = w.
Proof.
  intros Hc Hs.
  destruct (clicked_zero_observed d w Hc) as (Hb & Hp & Hf & Ho).
  rewrite dispatch_established. cbn [handlerOf].
  rewrite Ho, Hf, Hb, Hp, (put_fault _ _ w e Hs). repeat split.
Qed.

Lemma clicked_storage_fault_propagates_witness :
  outcome (clickedListenerCallbackCount faultyPage) = Fulfilled 0%Z ∧
  storageFault faultyPage = Some quotaExceeded ∧
  outcome (onNotificationClicked clickWithUrl faultyPage) = Rejected quotaExceeded.
Proof.
  split; [reflexivity |]. split; [reflexivity |].
  apply (clicked_storage_fault_propagates clickWithUrl faultyPage quotaExceeded
           {| replies := ∅ |}); reflexivity.
Defined.

(** C9, on the code.  In the proxy frame without a reference to the
    controlling frame, the presence query does not fall back to the local
    listeners: [resolve] is never called, the clicked handler stays pending,
    and the click is neither broadcast to the three local listeners nor
    stored.  The redirect relay, on the same world, is the no-op the claim
    describes. *)
Theorem frameless_click_never_settles :
  length (listeners (proxyFrameWindow 3 None) NOTIFICATION_CLICKED) = 3 ∧
  outcome (clickedListenerCallbackCount (proxyFrameWindow 3 None)) = Pending ∧
  outcome (onNotificationClicked clickWithUrl (proxyFrameWindow 3 None)) = Pending ∧
  emitted (onNotificationClicked clickWithUrl (proxyFrameWindow 3 None)) = [] ∧
  final (onNotificationClicked clickWithUrl (proxyFrameWindow 3 None)) = proxyFrameWindow 3 None ∧
  effectsOf (onRedirectPage redirectTarget (proxyFrameWindow 3 None)) = [] ∧
  outcome (onRedirectPage redirectTarget (proxyFrameWindow 3 None)) = Fulfilled tt.
Proof. repeat split. Qed.

(** ** The other helpers: properties *)

(** *** Objects with ordered keys *)

Lemma object_get_set_eq (key value : string) (o : list (string * string)) :
  object_get key (object_set key value o) = Some value.
Proof.
  induction o as [| [k v] o IH]; simpl.
  - by rewrite String.eqb_refl.
  - destruct (String.eqb_spec k key) as [-> | Hne]; simpl.
    + by rewrite String.eqb_refl.
    + by destruct (String.eqb_spec k key).
Qed.

Lemma object_get_set_ne (key key' value : string) (o : list (string * string)) :
  key ≠ key' →
  object_get key' (object_set key value o) = object_get key' o.
Proof.
  intros Hne. induction o as [| [k v] o IH]; simpl.
  - by destruct (String.eqb_spec key key').
  - destruct (String.eqb_spec k key) as [-> | Hk]; simpl.
    + by destruct (String.eqb_spec key key').
    + by rewrite IH.
Qed.

Lemma object_get_None (key : string) (o : list (string * string)) :
  object_get key o = None ↔ key ∉ Object_keys o.
Proof.
  unfold Object_keys. induction o as [| [k v] o IH]; simpl.
  - split; [intros _; apply not_elem_of_nil | done].
  - rewrite not_elem_of_cons. destruct (String.eqb_spec k key) as [-> | Hk].
    + split; [done | intros [? _]; done].
    + rewrite IH. split; [intros ?; split; congruence | intros [_ ?]; done].
Qed.

Lemma object_set_fresh (key value : string) (o : list (string * string)) :
  key ∉ Object_keys o →
  object_set key value o = o ++ [(key, value)].
Proof.
  unfold Object_keys. induction o as [| [k v] o IH]; simpl; [done |].
  rewrite not_elem_of_cons. intros [Hk Ho].
  destruct (String.eqb_spec k key) as [-> | _]; [done |].
  by rewrite IH.
Qed.

(** Setting a key to the value it has leaves the object as it is. *)
Lemma object_set_same (key value : string) (o : list (string * string)) :
  object_get key o = Some value →
  object_set key value o = o.
Proof.
  induction o as [| [k v] o IH]; simpl; [done |].
  destruct (String.eqb_spec k key) as [-> | _].
  - by intros [= ->].
  - intros H. by rewrite IH.
Qed.

(** *** The prompt options *)

(** Over keys that are new to the hash and pairwise distinct, the loop
    appends the kept ones, in their order. *)
Lemma hash_fresh_keys (encodeURIComponent : JsValue → string)
    (promptOptions : gmap string JsValue)
    (keys : list string) (hash : list (string * string)) :
  NoDup keys →
  (∀ key, key ∈ keys → key ∉ Object_keys hash) →
  foldl (hashPromptOption encodeURIComponent promptOptions) hash keys
    = hash ++ map (λ key, (key, encodeURIComponent (js_get promptOptions key)))
                  (filter (λ key, isPromptOptionKept (js_get promptOptions key) = true) keys).
Proof.
  revert hash. induction keys as [| key keys IH]; intros hash Hnd Hfresh.
  - simpl. by rewrite app_nil_r.
  - apply NoDup_cons in Hnd as [Hkey Hnd]. cbn [foldl].
    rewrite filter_cons. unfold hashPromptOption at 2.
    destruct (isPromptOptionKept (js_get promptOptions key)) eqn:Hk.
    + rewrite decide_True by done.
      rewrite object_set_fresh by (apply Hfresh; left).
      rewrite IH; [by rewrite <- app_assoc | done |].
      intros k Hin. unfold Object_keys. rewrite map_app, elem_of_app. simpl.
      intros [Hold | Hnew%list_elem_of_singleton].
      * by apply (Hfresh k); [right |].
      * by subst.
    + rewrite decide_False by done.
      apply IH; [done |]. intros k Hin. apply Hfresh. by right.
Qed.

(** The second round for [autoAcceptTitle] changes nothing. *)
Lemma hash_duplicate_key (encodeURIComponent : JsValue → string)
    (promptOptions : gmap string JsValue) :
  foldl (hashPromptOption encodeURIComponent promptOptions) [] allowedPromptOptions
    = foldl (hashPromptOption encodeURIComponent promptOptions) []
        [ "autoAcceptTitle"; "siteName"; "subscribeText"; "showGraphic"; "actionMessage";
          "exampleNotificationTitle"; "exampleNotificationMessage";
          "exampleNotificationCaption"; "acceptButtonText"; "cancelButtonText";
          "timeout" ].
Proof.
  unfold allowedPromptOptions. cbn [foldl]. do 9 f_equal.
  unfold hashPromptOption.
  destruct (isPromptOptionKept (js_get promptOptions "autoAcceptTitle"));
    destruct (isPromptOptionKept (js_get promptOptions "siteName")); reflexivity.
Qed.

Lemma js_get_insert_ne (o : gmap string JsValue) (key key' : string) (v : JsValue) :
  key ≠ key' → js_get (<[key := v]> o) key' = js_get o key'.
Proof. intros Hne. unfold js_get. by rewrite lookup_insert_ne. Qed.

Lemma js_get_truthy (o : gmap string JsValue) (key : string) :
  js_truthy (js_get o key) = true → o !! key = Some (js_get o key).
Proof. unfold js_get. by destruct (o !! key). Qed.

(** The prompt options after the loop over the legacy parameters, key by
    key. *)
Lemma legacy_lookup (promptOptions : gmap string JsValue) (key : string) :
  foldl copyLegacyParam promptOptions legacyParams !! key =
    if decide (key = "exampleNotificationTitle") then
      if js_truthy (js_get promptOptions "exampleNotificationTitleMobile")
      then promptOptions !! "exampleNotificationTitleMobile"
      else if js_truthy (js_get promptOptions "exampleNotificationTitleDesktop")
      then promptOptions !! "exampleNotificationTitleDesktop"
      else promptOptions !! key
    else if decide (key = "exampleNotificationMessage") then
      if js_truthy (js_get promptOptions "exampleNotificationMessageMobile")
      then promptOptions !! "exampleNotificationMessageMobile"
      else if js_truthy (js_get promptOptions "exampleNotificationMessageDesktop")
      then promptOptions !! "exampleNotificationMessageDesktop"
      else promptOptions !! key
    else promptOptions !! key.
Proof.
  unfold legacyParams. cbn [foldl]. unfold copyLegacyParam. cbn [fst snd].
  destruct (js_truthy (js_get promptOptions "exampleNotificationTitleDesktop")) eqn:HTD;
    rewrite ?js_get_insert_ne by done;
  destruct (js_truthy (js_get promptOptions "exampleNotificationMessageDesktop")) eqn:HMD;
    rewrite ?js_get_insert_ne by done;
  destruct (js_truthy (js_get promptOptions "exampleNotificationTitleMobile")) eqn:HTM;
    rewrite ?js_get_insert_ne by done;
  destruct (js_truthy (js_get promptOptions "exampleNotificationMessageMobile")) eqn:HMM;
    rewrite ?js_get_insert_ne by done;
  repeat match goal with
         | H : js_truthy (js_get _ _) = true |- _ => apply js_get_truthy in H
         end;
  repeat case_decide; subst; simplify_map_eq; congruence.
Qed.

Lemma legacy_get (promptOptions : gmap string JsValue) (key : string) :
  key ≠ "exampleNotificationTitle" →
  key ≠ "exampleNotificationMessage" →
  js_get (foldl copyLegacyParam promptOptions legacyParams) key = js_get promptOptions key.
Proof.
  intros Ht Hm. unfold js_get. rewrite legacy_lookup.
  by rewrite !decide_False by done.
Qed.

(** Running the loop over the legacy parameters again changes nothing. *)
Lemma legacy_stable (promptOptions : gmap string JsValue) :
  foldl copyLegacyParam (foldl copyLegacyParam promptOptions legacyParams) legacyParams
    = foldl copyLegacyParam promptOptions legacyParams.
Proof.
  apply map_eq. intros key. rewrite (legacy_lookup (foldl _ _ _)).
  rewrite !legacy_get by done.
  rewrite !(legacy_lookup promptOptions).
  repeat case_decide; subst; try done;
    repeat match goal with |- context [js_truthy ?v] => destruct (js_truthy v) end; done.
Qed.

(** X1.  The keys of the hash are the allowed prompt options whose value is
    kept, each once and in the order of [allowedPromptOptions]; no other key
    of the prompt options gets in. *)
Theorem hash_keys_are_kept_allowed (encodeURIComponent : JsValue → string)
    (promptOptions : gmap string JsValue) :
  ∃ hash promptOptions',
    getPromptOptionsPostHash encodeURIComponent (Some promptOptions)
      = (Some hash, Some promptOptions') ∧
    Object_keys hash
      = filter (λ key, isPromptOptionKept (js_get promptOptions' key) = true)
          [ "autoAcceptTitle"; "siteName"; "subscribeText"; "showGraphic"; "actionMessage";
            "exampleNotificationTitle"; "exampleNotificationMessage";
            "exampleNotificationCaption"; "acceptButtonText"; "cancelButtonText";
            "timeout" ] ∧
    NoDup (Object_keys hash) ∧
    ∀ key, key ∈ Object_keys hash → key ∈ allowedPromptOptions.
Proof.
  eexists _, _. split; [reflexivity |].
  rewrite hash_duplicate_key, hash_fresh_keys; cycle 1.
  { apply (bool_decide_unpack _). vm_compute. exact I. }
  { intros key _. apply not_elem_of_nil. }
  cbn [app]. unfold Object_keys. rewrite List.map_map. cbn [fst]. rewrite List.map_id.
  split; [reflexivity |]. split.
  - apply NoDup_filter. apply (bool_decide_unpack _). vm_compute. exact I.
  - intros key [_ Hin]%list_elem_of_filter. revert key Hin.
    apply Forall_forall, (bool_decide_unpack _). vm_compute. exact I.
Qed.

Lemma object_get_fmap (f : string → string) (keys : list string) (key : string) :
  object_get key (map (λ k, (k, f k)) keys)
    = if decide (key ∈ keys) then Some (f key) else None.
Proof.
  induction keys as [| k keys IH]; cbn [map object_get].
  - destruct (decide (key ∈ [])) as [Hin | _]; [by apply elem_of_nil in Hin | done].
  - destruct (String.eqb_spec k key) as [-> | Hne].
    + destruct (decide (key ∈ key :: keys)) as [_ | Hout]; [done |].
      exfalso. apply Hout. left.
    + rewrite IH. destruct (decide (key ∈ keys)) as [Hin | Hout];
        destruct (decide (key ∈ k :: keys)) as [Hin' | Hout']; try done.
      * exfalso. apply Hout'. by right.
      * apply elem_of_cons in Hin' as [-> | Hin']; done.
Qed.

Lemma hash_of_kept (encodeURIComponent : JsValue → string) (promptOptions : gmap string JsValue) :
  foldl (hashPromptOption encodeURIComponent promptOptions) [] allowedPromptOptions
    = map (λ key, (key, encodeURIComponent (js_get promptOptions key)))
        (filter (λ key, isPromptOptionKept (js_get promptOptions key) = true)
           [ "autoAcceptTitle"; "siteName"; "subscribeText"; "showGraphic"; "actionMessage";
             "exampleNotificationTitle"; "exampleNotificationMessage";
             "exampleNotificationCaption"; "acceptButtonText"; "cancelButtonText";
             "timeout" ]).
Proof.
  rewrite hash_duplicate_key, hash_fresh_keys; [done | |].
  - apply (bool_decide_unpack _). vm_compute. exact I.
  - intros key _. apply not_elem_of_nil.
Qed.

Lemma allowed_distinct (key : string) :
  key ∈ [ "autoAcceptTitle"; "siteName"; "subscribeText"; "showGraphic"; "actionMessage";
          "exampleNotificationTitle"; "exampleNotificationMessage";
          "exampleNotificationCaption"; "acceptButtonText"; "cancelButtonText";
          "timeout" ]
  ↔ key ∈ allowedPromptOptions.
Proof.
  unfold allowedPromptOptions. rewrite !elem_of_cons, !elem_of_nil. tauto.
Qed.

(** X2.  Under an allowed key the hash holds [encodeURIComponent] of the
    option's value, if that value is kept; under any other key it holds
    nothing, whatever the prompt options hold there. *)
Theorem hash_value_of_option (encodeURIComponent : JsValue → string)
    (promptOptions : gmap string JsValue) (key : string) :
  ∃ hash promptOptions',
    getPromptOptionsPostHash encodeURIComponent (Some promptOptions)
      = (Some hash, Some promptOptions') ∧
    object_get key hash
      = if decide (key ∈ allowedPromptOptions)
        then if isPromptOptionKept (js_get promptOptions' key)
             then Some (encodeURIComponent (js_get promptOptions' key))
             else None
        else None.
Proof.
  eexists _, _. split; [reflexivity |].
  rewrite hash_of_kept, (object_get_fmap (λ k, encodeURIComponent (js_get _ k))).
  destruct (decide (key ∈ allowedPromptOptions)) as [Hin | Hout].
  - destruct (isPromptOptionKept _) eqn:Hk.
    + rewrite decide_True; [done |]. apply list_elem_of_filter. split; [done |].
      by apply allowed_distinct.
    + rewrite decide_False; [done |]. intros [Hk' _]%list_elem_of_filter. congruence.
  - rewrite decide_False; [done |]. intros [_ Hin]%list_elem_of_filter.
    by apply allowed_distinct in Hin.
Qed.

(** X3.  An allowed option is left out of the hash exactly when its value
    is [undefined] (or the option is not given), [null] or the number 0;
    [false] and the empty string are sent. *)
Theorem hash_drops_only_undefined_null_zero (encodeURIComponent : JsValue → string)
    (promptOptions : gmap string JsValue) (key : string) :
  key ∈ allowedPromptOptions →
  ∃ hash promptOptions',
    getPromptOptionsPostHash encodeURIComponent (Some promptOptions)
      = (Some hash, Some promptOptions') ∧
    (key ∉ Object_keys hash ↔
       js_get promptOptions' key = JsUndefined ∨
       js_get promptOptions' key = JsNull ∨
       js_get promptOptions' key = JsNumber 0).
Proof.
  intros Hin.
  destruct (hash_value_of_option encodeURIComponent promptOptions key)
    as (hash & promptOptions' & Hrun & Hget).
  exists hash, promptOptions'. split; [exact Hrun |].
  rewrite <- object_get_None, Hget, decide_True by done.
  unfold isPromptOptionKept.
  destruct (js_get promptOptions' key) as [| | [] | n | s | f | ref]; simpl;
    try (split; [done | intros [? | [? | ?]]; done]);
    try (split; [auto | done]).
  - destruct (Z.eqb_spec n 0) as [-> | Hn]; simpl.
    + split; [auto | done].
    + split; [done | intros [? | [? | [= ?]]]; done].
  - destruct (String.eqb_spec s "") as [-> | Hs]; simpl.
    + split; [done | intros [? | [? | ?]]; done].
    + split; [done | intros [? | [? | ?]]; done].
Qed.

Lemma hash_drops_only_undefined_null_zero_witness :
  "timeout" ∈ allowedPromptOptions ∧
  ∃ hash promptOptions',
    getPromptOptionsPostHash (λ _, "v") (Some {[ "timeout" := JsNumber 0 ]})
      = (Some hash, Some promptOptions') ∧
    "timeout" ∉ Object_keys hash.
Proof.
  assert (Hin : "timeout" ∈ allowedPromptOptions).
  { apply (bool_decide_unpack _). vm_compute. exact I. }
  split; [exact Hin |].
  destruct (hash_drops_only_undefined_null_zero (λ _, "v") {[ "timeout" := JsNumber 0 ]}
              "timeout" Hin) as (hash & promptOptions' & Hrun & Hiff).
  exists hash, promptOptions'. split; [exact Hrun |].
  apply Hiff. right. right.
  injection Hrun as _ <-. vm_compute. reflexivity.
Defined.

(** X4.  The legacy parameters overwrite [exampleNotificationTitle] and
    [exampleNotificationMessage] in the prompt options themselves: the value
    for mobile wins if it is truthy, else the value for desktop if it is
    truthy, else the option stays as given; every other key stays as given. *)
Theorem legacy_params_take_over (encodeURIComponent : JsValue → string)
    (promptOptions : gmap string JsValue) :
  ∃ hash promptOptions',
    getPromptOptionsPostHash encodeURIComponent (Some promptOptions)
      = (Some hash, Some promptOptions') ∧
    js_get promptOptions' "exampleNotificationTitle"
      = (if js_truthy (js_get promptOptions "exampleNotificationTitleMobile")
         then js_get promptOptions "exampleNotificationTitleMobile"
         else if js_truthy (js_get promptOptions "exampleNotificationTitleDesktop")
         then js_get promptOptions "exampleNotificationTitleDesktop"
         else js_get promptOptions "exampleNotificationTitle") ∧
    js_get promptOptions' "exampleNotificationMessage"
      = (if js_truthy (js_get promptOptions "exampleNotificationMessageMobile")
         then js_get promptOptions "exampleNotificationMessageMobile"
         else if js_truthy (js_get promptOptions "exampleNotificationMessageDesktop")
         then js_get promptOptions "exampleNotificationMessageDesktop"
         else js_get promptOptions "exampleNotificationMessage") ∧
    ∀ key, key ≠ "exampleNotificationTitle" → key ≠ "exampleNotificationMessage" →
           promptOptions' !! key = promptOptions !! key.
Proof.
  eexists _, _. split; [reflexivity |].
  split; [| split].
  - unfold js_get at 1. rewrite legacy_lookup.
    repeat case_decide; try done.
    by repeat destruct (js_truthy _).
  - unfold js_get at 1. rewrite legacy_lookup.
    repeat case_decide; try done.
    by repeat destruct (js_truthy _).
  - intros key Ht Hm. rewrite legacy_lookup. by rewrite !decide_False by done.
Qed.

(** X5.  Asking for the hash again, on the prompt options the first call
    left, gives the same hash and leaves the same prompt options. *)
Theorem post_hash_is_stable (encodeURIComponent : JsValue → string)
    (promptOptions : option (gmap string JsValue)) :
  getPromptOptionsPostHash encodeURIComponent
      (getPromptOptionsPostHash encodeURIComponent promptOptions).2
    = getPromptOptionsPostHash encodeURIComponent promptOptions.
Proof.
  destruct promptOptions as [promptOptions |]; [| reflexivity].
  cbn [getPromptOptionsPostHash snd]. by rewrite legacy_stable.
Qed.

Lemma hash_keys_distinct (encodeURIComponent : JsValue → string)
    (promptOptions : gmap string JsValue) :
  NoDup (Object_keys
           (foldl (hashPromptOption encodeURIComponent promptOptions) [] allowedPromptOptions)).
Proof.
  rewrite hash_of_kept. unfold Object_keys. rewrite List.map_map. cbn [fst].
  rewrite List.map_id. apply NoDup_filter. apply (bool_decide_unpack _). vm_compute. exact I.
Qed.

Lemma string_app_assoc (s1 s2 s3 : string) :
  ((s1 ++ s2) ++ s3 = s1 ++ (s2 ++ s3))%string.
Proof.
  induction s1 as [| c s1 IH]; [reflexivity |].
  change (String c ((s1 ++ s2) ++ s3) = String c (s1 ++ (s2 ++ s3)))%string.
  by f_equal.
Qed.

Lemma string_app_nil_r (s : string) : (s ++ "" = s)%string.
Proof.
  induction s as [| c s IH]; [reflexivity |].
  change (String c (s ++ "") = String c s)%string. by f_equal.
Qed.

Lemma object_get_entry (o : list (string * string)) (key value : string) :
  NoDup (Object_keys o) →
  (key, value) ∈ o →
  object_get key o = Some value.
Proof.
  unfold Object_keys. induction o as [| [k v] o IH]; simpl.
  - intros _ Hin. by apply elem_of_nil in Hin.
  - intros [Hk Hnd]%NoDup_cons [[= -> ->] | Hin]%elem_of_cons.
    + by rewrite String.eqb_refl.
    + destruct (String.eqb_spec k key) as [-> | _]; [| by apply IH].
      exfalso. apply Hk. apply list_elem_of_fmap. by exists (key, value).
Qed.

Lemma query_loop (hash entries : list (string * string)) (promptOptionsStr : string) :
  (∀ key value, (key, value) ∈ entries → object_get key hash = Some value) →
  foldl (λ promptOptionsStr key,
           let value := default "" (object_get key hash) in
           (promptOptionsStr ++ "&" ++ key ++ "=" ++ value)%string)
        promptOptionsStr (Object_keys entries)
    = (promptOptionsStr ++ renderHash entries)%string.
Proof.
  revert promptOptionsStr. unfold Object_keys.
  induction entries as [| [key value] entries IH]; intros promptOptionsStr Hget.
  - simpl. by rewrite string_app_nil_r.
  - cbn [map foldl fst renderHash foldr snd].
    rewrite IH by (intros k v Hin; apply Hget; by right).
    rewrite (Hget key value) by left. cbn [default].
    fold (renderHash entries).
    by rewrite !string_app_assoc.
Qed.

(** X6.  The query string is made of the hash of [getPromptOptionsPostHash]:
    one [&key=value] for each of its entries, in their order; it is empty
    exactly when there are no prompt options or none of them is kept. *)
Theorem query_string_of_hash (encodeURIComponent : JsValue → string)
    (promptOptions : option (gmap string JsValue)) :
  getPromptOptionsQueryString encodeURIComponent promptOptions
    = (renderHash (default [] (getPromptOptionsPostHash encodeURIComponent promptOptions).1),
       (getPromptOptionsPostHash encodeURIComponent promptOptions).2) ∧
  ((getPromptOptionsQueryString encodeURIComponent promptOptions).1 = "" ↔
     default [] (getPromptOptionsPostHash encodeURIComponent promptOptions).1 = []).
Proof.
  assert (Heq : getPromptOptionsQueryString encodeURIComponent promptOptions
    = (renderHash (default [] (getPromptOptionsPostHash encodeURIComponent promptOptions).1),
       (getPromptOptionsPostHash encodeURIComponent promptOptions).2)).
  { destruct promptOptions as [promptOptions |]; [| reflexivity].
    unfold getPromptOptionsQueryString, getPromptOptionsPostHash.
    set (promptOptions' := foldl copyLegacyParam promptOptions legacyParams).
    set (hash := foldl (hashPromptOption encodeURIComponent promptOptions') []
                   allowedPromptOptions).
    cbn [fst snd default from_option id]. f_equal.
    rewrite query_loop; [done |].
    intros key value Hin. apply object_get_entry; [| done].
    apply hash_keys_distinct. }
  split; [exact Heq |]. rewrite Heq. cbn [fst].
  destruct (default [] _) as [| [key value] hash]; [done |].
  split; [discriminate | discriminate].
Qed.

(** *** The session flag and the notification type *)

(** X7.  Once [markHttpPopoverShown] has run, [isHttpPromptAlreadyShown]
    answers true, whatever the session storage held before; marking twice is
    marking once, and no other key of the storage is touched. *)
Theorem popover_flag_round_trip (sessionStorage : gmap string string) :
  isHttpPromptAlreadyShown (markHttpPopoverShown sessionStorage) = true ∧
  markHttpPopoverShown (markHttpPopoverShown sessionStorage)
    = markHttpPopoverShown sessionStorage ∧
  ∀ key, key ≠ "ONESIGNAL_HTTP_PROMPT_SHOWN" →
         markHttpPopoverShown sessionStorage !! key = sessionStorage !! key.
Proof.
  unfold isHttpPromptAlreadyShown, markHttpPopoverShown. split; [| split].
  - by rewrite lookup_insert_eq.
  - apply insert_insert_eq.
  - intros key Hne. by rewrite lookup_insert_ne.
Qed.

(** X8.  The notification type is -2 exactly when the subscription flag is
    [false]; for [true], and for [null] and [undefined] alike, it is 1. *)
Theorem notification_type_of_opt_in (isOptedIn : OptIn) :
  (getNotificationTypeFromOptIn isOptedIn = (-2)%Z ↔ isOptedIn = OptInBool false) ∧
  (getNotificationTypeFromOptIn isOptedIn = 1%Z ↔ isOptedIn ≠ OptInBool false).
Proof. destruct isOptedIn as [| | []]; by split. Qed.

(** *** More on the clicked handler *)

Lemma put_final (table : string) (entry : InboxEntry) (w : World) :
  final (Database_put table entry w)
    = match storageFault w with
      | Some _ => w
      | None => set_database (λ db, <[table := rows table w ++ [entry]]> db) w
      end.
Proof. unfold Database_put. by destruct (storageFault w). Qed.

(** Where a run of the clicked handler leaves the world. *)
Lemma clicked_final (d : Payload) (w : World) :
  final (onNotificationClicked d w) = w ∨
  (outcome (clickedListenerCallbackCount w) = Fulfilled 0%Z ∧
   storageFault w = None ∧
   final (onNotificationClicked d w)
     = set_database
         (λ db, <["NotificationOpened" := rows "NotificationOpened" w ++ [clickedEntry d w]]> db) w).
Proof.
  destruct (outcome (clickedListenerCallbackCount w)) as [c | e |] eqn:Hc.
  - destruct (decide (c = 0%Z)) as [-> | Hne].
    + destruct (clicked_zero_observed d w Hc) as (_ & _ & Hf & _).
      rewrite Hf, put_final. destruct (storageFault w); [by left | by right].
    + destruct (clicked_nonzero_observed d w c Hc Hne) as (_ & _ & Hf & _). by left.
  - by destruct (count_not_rejected w e).
  - rewrite (clicked_run_unsettled d w Hc). by left.
Qed.

(** X9.  A run of the clicked handler only ever appends to the inbox: the
    rows of [NotificationOpened] that were there stay, in place, with at most
    one row behind them; every other table, and everything of the world that
    is not the store, is left as it was. *)
Theorem clicked_only_appends (d : Payload) (w : World) :
  (∃ added : list InboxEntry, (length added ≤ 1)%nat ∧
     rows "NotificationOpened" (final (onNotificationClicked d w))
       = rows "NotificationOpened" w ++ added) ∧
  (∀ table, table ≠ "NotificationOpened" →
     database (final (onNotificationClicked d w)) !! table = database w !! table) ∧
  final (onNotificationClicked d w)
    = set_database (λ _, database (final (onNotificationClicked d w))) w.
Proof.
  destruct (clicked_final d w) as [-> | (_ & _ & ->)].
  - split; [| split].
    + exists []. split; [simpl; lia | by rewrite app_nil_r].
    + done.
    + by destruct w.
  - split; [| split].
    + exists [clickedEntry d w]. split; [done |].
      unfold rows at 1. cbn [set_database database]. by rewrite lookup_insert_eq.
    + intros table Hne. cbn [set_database database]. by rewrite lookup_insert_ne.
    + done.
Qed.

(** X10.  For a payload that is an object or a string, so that [data.url]
    can be read, the clicked handler's promise is rejected only by the store:
    if it is rejected with [e], the count had resolved to zero and [e] is the
    fault of the storage layer.  (A payload that is [undefined] or [null] is
    outside [Payload]; there the read of [data.url] itself throws.) *)
Theorem clicked_rejects_only_on_storage_fault (d : Payload) (w : World) (e : JsError) :
  outcome (onNotificationClicked d w) = Rejected e →
  outcome (clickedListenerCallbackCount w) = Fulfilled 0%Z ∧ storageFault w = Some e.
Proof.
  intros Hr.
  destruct (outcome (clickedListenerCallbackCount w)) as [c | e' |] eqn:Hc.
  - destruct (decide (c = 0%Z)) as [-> | Hne].
    + split; [done |].
      destruct (clicked_zero_observed d w Hc) as (_ & _ & _ & Ho).
      rewrite Ho in Hr. unfold Database_put in Hr.
      destruct (storageFault w); simpl in Hr; congruence.
    + destruct (clicked_nonzero_observed d w c Hc Hne) as (_ & _ & _ & Ho). congruence.
  - by destruct (count_not_rejected w e').
  - rewrite (clicked_run_unsettled d w Hc) in Hr. discriminate.
Qed.

Lemma clicked_rejects_only_on_storage_fault_witness :
  outcome (onNotificationClicked clickWithUrl faultyPage) = Rejected quotaExceeded ∧
  storageFault faultyPage = Some quotaExceeded.
Proof.
  split; [reflexivity |].
  exact (proj2 (clicked_rejects_only_on_storage_fault clickWithUrl faultyPage quotaExceeded
                  eq_refl)).
Defined.

(** X11.  The clicked handler stays pending exactly in the proxy frame whose
    controlling frame is missing or never answers the count query; in every
    other world its promise settles. *)
Theorem clicked_pending_iff (d : Payload) (w : World) :
  outcome (onNotificationClicked d w) = Pending ↔
  windowEnv w = OneSignalProxyFrame ∧
  (proxyFrame w = None ∨
   ∃ pf, proxyFrame w = Some pf ∧
         remote (messenger pf) GET_EVENT_LISTENER_COUNT (EventNameData NOTIFICATION_CLICKED)
           = None).
Proof.
  assert (Hsettled : ∀ c, outcome (clickedListenerCallbackCount w) = Fulfilled c →
                          outcome (onNotificationClicked d w) ≠ Pending).
  { intros c Hc. destruct (decide (c = 0%Z)) as [-> | Hne].
    - destruct (clicked_zero_observed d w Hc) as (_ & _ & _ & ->).
      unfold Database_put. by destruct (storageFault w).
    - by destruct (clicked_nonzero_observed d w c Hc Hne) as (_ & _ & _ & ->). }
  destruct (decide (windowEnv w = OneSignalProxyFrame)) as [He | Hne].
  - destruct (proxyFrame w) as [pf |] eqn:Hpf.
    + pose proof (count_delegated w pf He Hpf) as Hcount.
      destruct (remote (messenger pf) _ _) as [reply |] eqn:Hr.
      * split.
        -- intros Hp. exfalso. apply (Hsettled (reply_data reply)); [by rewrite Hcount | done].
        -- intros (_ & [? | (pf' & [= <-] & Hnone)]); congruence.
      * split; [intros _; split; [done | right; by exists pf] |].
        intros _. rewrite clicked_run_unsettled; [done | by rewrite Hcount].
    + split; [intros _; by split; [| left] |].
      intros _. rewrite clicked_run_unsettled; [done | by rewrite count_frameless].
  - split; [| intros [? _]; done].
    intros Hp. exfalso. eapply Hsettled; [by rewrite (count_local w Hne) | done].
Qed.



(** *** The manifests *)

Lemma move_loop (contains : string → string → bool)
    (manifests : list ManifestLink) (children moved : list nat) :
  NoDup (oneSignalManifests contains manifests) →
  foldl (moveIfOneSignalManifest contains) (Normal (Some children, moved)) manifests
    = Normal
        (Some (reverse (oneSignalManifests contains manifests)
               ++ filter (λ child, child ∉ oneSignalManifests contains manifests) children),
         moved ++ oneSignalManifests contains manifests).
Proof.
  unfold oneSignalManifests.
  revert children moved. induction manifests as [| m manifests IH]; intros children moved Hnd.
  - cbn. rewrite app_nil_r. f_equal. f_equal. f_equal.
    induction children as [| c children IHc]; [done |].
    rewrite filter_cons, decide_True by apply not_elem_of_nil. by f_equal.
  - cbn [foldl moveIfOneSignalManifest]. rewrite filter_cons in Hnd |- *.
    destruct (contains (link_href m) "gcm_sender_id") eqn:Hm.
    + rewrite decide_True in Hnd |- * by done. cbn [map] in Hnd |- *.
      apply NoDup_cons in Hnd as [Hfresh Hnd].
      rewrite IH by done. f_equal. f_equal; [| by rewrite <- app_assoc].
      f_equal. rewrite reverse_cons, <- app_assoc. f_equal.
      unfold insertBeforeFirst. rewrite filter_cons, decide_True by done.
      cbn [app]. f_equal.
      induction children as [| c children IHc]; [done |].
      rewrite !filter_cons.
      destruct (decide (c = link_node m)) as [-> | Hc].
      * rewrite decide_False by (intros H; by apply H).
        rewrite decide_False by (intros H; apply H; left). exact IHc.
      * rewrite decide_True by done. rewrite filter_cons.
        destruct (decide (c ∉ map link_node _)) as [Hout | Hin].
        -- rewrite decide_True; [by f_equal |].
           rewrite not_elem_of_cons. by split.
        -- rewrite decide_False; [exact IHc |].
           rewrite not_elem_of_cons. intros [_ ?]. done.
    + rewrite decide_False in Hnd |- * by congruence. by apply IH.
Qed.

Lemma move_loop_nothing (contains : string → string → bool)
    (manifests : list ManifestLink) (head : option (list nat))
    (moved : list nat) :
  oneSignalManifests contains manifests = [] →
  foldl (moveIfOneSignalManifest contains) (Normal (head, moved)) manifests
    = Normal (head, moved).
Proof.
  unfold oneSignalManifests.
  induction manifests as [| m manifests IH]; [done |].
  rewrite filter_cons. cbn [foldl moveIfOneSignalManifest].
  destruct (contains (link_href m) "gcm_sender_id") eqn:Hm.
  - rewrite decide_True by done. discriminate.
  - rewrite decide_False by congruence. exact IH.
Qed.

Lemma picked_distinct (contains : string → string → bool)
    (manifests : list ManifestLink) :
  NoDup (map link_node manifests) →
  NoDup (oneSignalManifests contains manifests).
Proof.
  unfold oneSignalManifests. intros Hnd.
  induction manifests as [| m manifests IH]; [constructor |].
  cbn [map] in Hnd. apply NoDup_cons in Hnd as [Hm Hnd].
  rewrite filter_cons. case_decide; [| by apply IH].
  cbn [map]. apply NoDup_cons. split; [| by apply IH].
  intros (m' & Heq & [_ Hin]%list_elem_of_filter)%list_elem_of_fmap.
  apply Hm. apply list_elem_of_fmap. by exists m'.
Qed.

(** X13.  With fewer than two manifest links, or with none that [contains]
    picks, nothing is moved: also a single OneSignal manifest that is not the
    first child of [head] stays where it is. *)
Theorem manifests_left_alone (contains : string → string → bool)
    (manifests : list ManifestLink) (head : option (list nat)) :
  (length manifests ≤ 1)%nat ∨ oneSignalManifests contains manifests = [] →
  fixWordpressManifestIfMisplaced contains manifests head = Normal (head, []).
Proof.
  intros [Hshort | Hnone]; unfold fixWordpressManifestIfMisplaced.
  - by rewrite (proj2 (Nat.leb_le _ _) Hshort).
  - destruct (length manifests <=? 1)%nat; [done |]. by apply move_loop_nothing.
Qed.

Lemma manifests_left_alone_witness :
  (length (take 1 (drop 1 sampleManifests)) ≤ 1)%nat ∧
  oneSignalManifests sampleContains (take 1 (drop 1 sampleManifests)) = [12] ∧
  fixWordpressManifestIfMisplaced sampleContains (take 1 (drop 1 sampleManifests))
      (Some [1; 2; 12])
    = Normal (Some [1; 2; 12], []).
Proof.
  split; [simpl; lia |]. split; [reflexivity |].
  apply manifests_left_alone. left. simpl. lia.
Defined.

(** X14.  With two manifest links or more in a document with a [head], the
    manifests that [contains] picks become the first children of [head], the
    last of them in document order first, and the other children follow in
    the order they had; one line is logged for each manifest moved. *)
Theorem manifests_moved_to_front (contains : string → string → bool)
    (manifests : list ManifestLink) (children : list nat) :
  (2 ≤ length manifests)%nat →
  NoDup (map link_node manifests) →
  fixWordpressManifestIfMisplaced contains manifests (Some children)
    = Normal
        (Some (reverse (oneSignalManifests contains manifests)
               ++ filter (λ child, child ∉ oneSignalManifests contains manifests) children),
         oneSignalManifests contains manifests).
Proof.
  intros Hlen Hnd. unfold fixWordpressManifestIfMisplaced.
  rewrite (proj2 (Nat.leb_gt _ _)) by lia.
  rewrite move_loop; [done |].
  by apply picked_distinct.
Qed.

Lemma manifests_moved_to_front_witness :
  (2 ≤ length sampleManifests)%nat ∧
  fixWordpressManifestIfMisplaced sampleContains sampleManifests (Some [1; 11; 2; 12; 3])
    = Normal (Some [13; 12; 1; 11; 2; 3], [12; 13]).
Proof.
  split; [simpl; lia |].
  rewrite manifests_moved_to_front; [reflexivity | simpl; lia |].
  apply (bool_decide_unpack _). vm_compute. exact I.
Defined.

(** X15.  Moving manifests loses no child of [head] and doubles none: the
    children afterwards are the children before together with the manifests
    moved, each once. *)
Theorem manifests_keep_children (contains : string → string → bool)
    (manifests : list ManifestLink) (children : list nat) :
  NoDup (map link_node manifests) →
  NoDup children →
  ∃ children' moved,
    fixWordpressManifestIfMisplaced contains manifests (Some children)
      = Normal (Some children', moved) ∧
    NoDup children' ∧
    ∀ node, node ∈ children' ↔ node ∈ children ∨ node ∈ moved.
Proof.
  intros Hnd Hch.
  destruct (decide (length manifests ≤ 1)%nat) as [Hshort | Hlong].
  - exists children, []. rewrite manifests_left_alone by (by left).
    split; [done |]. split; [done |]. intros node. rewrite elem_of_nil. tauto.
  - eexists _, _. rewrite manifests_moved_to_front by (done || lia).
    split; [reflexivity |].
    pose proof (picked_distinct contains manifests Hnd) as Hmoved.
    split.
    + apply NoDup_app. split; [by rewrite reverse_Permutation |]. split; [| by apply NoDup_filter].
      intros node Hin [Hout _]%list_elem_of_filter. rewrite elem_of_reverse in Hin.
      by apply Hout.
    + intros node. rewrite elem_of_app, elem_of_reverse, list_elem_of_filter.
      destruct (decide (node ∈ oneSignalManifests contains manifests)); tauto.
Qed.

Lemma manifests_keep_children_witness :
  NoDup (map link_node sampleManifests) ∧
  ∃ children' moved,
    fixWordpressManifestIfMisplaced sampleContains sampleManifests (Some [1; 11; 2; 12])
      = Normal (Some children', moved) ∧
    NoDup children'.
Proof.
  assert (Hnd : NoDup (map link_node sampleManifests)).
  { apply (bool_decide_unpack _). vm_compute. exact I. }
  assert (Hch : NoDup [1; 11; 2; 12]).
  { apply (bool_decide_unpack _). vm_compute. exact I. }
  split; [exact Hnd |].
  destruct (manifests_keep_children sampleContains sampleManifests [1; 11; 2; 12] Hnd Hch)
    as (children' & moved & Hrun & Hnd' & _).
  exists children', moved. split; [exact Hrun | exact Hnd'].
Defined.

(** *** The notify button *)

Lemma assign_back (notifyButton bell : gmap string JsValue) :
  objectAssign notifyButton (objectAssign bell notifyButton) = notifyButton ∪ bell.
Proof.
  unfold objectAssign. apply map_eq. intros key. rewrite !lookup_union.
  by destruct (notifyButton !! key), (bell !! key).
Qed.

(** The world a call leaves, when it gets past its guard. *)
Lemma show_after (w : ButtonWorld) :
  isBrowser w = true →
  OneSignal_notifyButton w = None →
  isBrowser (after (showNotifyButton w)) = true ∧
  callFunction (after (showNotifyButton w)) = callFunction w ∧
  userConfig_notifyButton (after (showNotifyButton w))
    = Some (default ∅ (userConfig_notifyButton w) ∪ default ∅ (userConfig_bell w)) ∧
  userConfig_bell (after (showNotifyButton w))
    = (λ bell, default ∅ (userConfig_notifyButton w) ∪ bell) <$> userConfig_bell w.
Proof.
  intros Hb Hn. unfold showNotifyButton. rewrite Hb, Hn. cbn [andb negb bool_decide].
  rewrite bool_decide_eq_false_2 by (by intros [? ?]). cbn [negb].
  destruct (userConfig_bell w) as [bell |]; cbn [fst snd default from_option id fmap option_fmap option_map];
    rewrite ?assign_back, ?(right_id_L ∅ (∪));
    repeat match goal with
           | |- context [match ?x with _ => _ end] => destruct x
           end; done.
Qed.

(** X16.  When the button is set up and both [bell] and [notifyButton] are
    configured, the two end up as one and the same set of options, in which
    an option of [notifyButton] wins over the option of [bell] of that name
    and the options only [bell] has are kept. *)
Theorem notify_button_options_win (w : ButtonWorld) (bell : gmap string JsValue) :
  isBrowser w = true →
  OneSignal_notifyButton w = None →
  userConfig_bell w = Some bell →
  ∃ options,
    userConfig_notifyButton (after (showNotifyButton w)) = Some options ∧
    userConfig_bell (after (showNotifyButton w)) = Some options ∧
    ∀ key, options !! key
           = match default ∅ (userConfig_notifyButton w) !! key with
             | Some value => Some value
             | None => bell !! key
             end.
Proof.
  intros Hb Hn Hbell.
  destruct (show_after w Hb Hn) as (_ & _ & Hnb & Hbl). rewrite Hbell in Hnb, Hbl.
  eexists. split; [exact Hnb |]. split; [exact Hbl |].
  intros key. cbn [default from_option id]. rewrite lookup_union.
  by destruct (default ∅ (userConfig_notifyButton w) !! key), (bell !! key).
Qed.

Lemma notify_button_options_win_witness :
  isBrowser (sampleButtonWorld JsNull) = true ∧
  ∃ options,
    userConfig_bell (after (showNotifyButton (sampleButtonWorld JsNull))) = Some options ∧
    options !! "enable" = Some (JsBool true) ∧
    options !! "size" = Some (JsString "large").
Proof.
  split; [reflexivity |].
  destruct (notify_button_options_win (sampleButtonWorld JsNull)
              {[ "enable" := JsBool false; "size" := JsString "large" ]}
              eq_refl eq_refl eq_refl) as (options & _ & Hbell & Hkey).
  exists options. split; [exact Hbell |].
  split; rewrite Hkey; vm_compute; reflexivity.
Defined.

(** X17.  A display predicate hides the button only by the value [false]:
    when the predicate, a function, comes to a value, the button is created,
    from the merged options, unless that value is [false]; [undefined],
    [null], [0] and the empty string show the button as [true] does. *)
Theorem only_false_hides_button (w : ButtonWorld) (f : nat) (predicateValue : JsValue) :
  isBrowser w = true →
  OneSignal_notifyButton w = None →
  js_get (default ∅ (userConfig_notifyButton w) ∪ default ∅ (userConfig_bell w))
    "displayPredicate" = JsFunction f →
  callFunction w f = Normal (Fulfilled predicateValue) →
  (OneSignal_notifyButton (after (showNotifyButton w)) = None ↔ predicateValue = JsBool false) ∧
  (predicateValue ≠ JsBool false →
     OneSignal_notifyButton (after (showNotifyButton w))
       = Some {| bell_config :=
                   default ∅ (userConfig_notifyButton w) ∪ default ∅ (userConfig_bell w) |} ∧
     did (showNotifyButton w)
       = [BellCreate (default ∅ (userConfig_notifyButton w) ∪ default ∅ (userConfig_bell w))]) ∧
  (predicateValue = JsBool false → did (showNotifyButton w) = [LogPredicateFalse]).
Proof.
  intros Hb Hn Hp Hcall. unfold showNotifyButton. rewrite Hb, Hn.
  rewrite bool_decide_eq_false_2 by (by intros [? ?]). cbn [andb negb].
  assert (Hmerged :
    (match userConfig_bell w with
     | Some bell =>
         (Some (objectAssign bell (default ∅ (userConfig_notifyButton w))),
          objectAssign (default ∅ (userConfig_notifyButton w))
            (objectAssign bell (default ∅ (userConfig_notifyButton w))))
     | None => (None, default ∅ (userConfig_notifyButton w))
     end).2 = default ∅ (userConfig_notifyButton w) ∪ default ∅ (userConfig_bell w)).
  { destruct (userConfig_bell w) as [bell |]; cbn [snd default from_option id].
    - apply assign_back.
    - by rewrite (right_id_L ∅ (∪)). }
  cbv zeta. rewrite Hmerged, Hp. cbn [callFunction]. rewrite Hcall.
  destruct (decide (predicateValue = JsBool false)) as [-> | Hne].
  - rewrite bool_decide_eq_false_2 by (intros H; by apply H).
    cbn [after did OneSignal_notifyButton]. by repeat split.
  - rewrite bool_decide_eq_true_2 by done. unfold createBell.
    cbn [after did OneSignal_notifyButton userConfig_notifyButton default from_option id].
    split; [split; [discriminate | done] |]. split; [done | done].
Qed.

Lemma only_false_hides_button_witness :
  callFunction (sampleButtonWorld (JsNumber 0)) 1 = Normal (Fulfilled (JsNumber 0)) ∧
  is_Some (OneSignal_notifyButton (after (showNotifyButton (sampleButtonWorld (JsNumber 0))))) ∧
  callFunction (sampleButtonWorld (JsBool false)) 1 = Normal (Fulfilled (JsBool false)) ∧
  OneSignal_notifyButton (after (showNotifyButton (sampleButtonWorld (JsBool false)))) = None.
Proof.
  split; [reflexivity |]. split.
  - destruct (only_false_hides_button (sampleButtonWorld (JsNumber 0)) 1 (JsNumber 0)
                eq_refl eq_refl eq_refl eq_refl) as (_ & Hshow & _).
    destruct (Hshow ltac:(discriminate)) as [-> _]. by eexists.
  - split; [reflexivity |].
    apply (only_false_hides_button (sampleButtonWorld (JsBool false)) 1 (JsBool false)
             eq_refl eq_refl eq_refl eq_refl). reflexivity.
Defined.

(** X18.  Calling [showNotifyButton] again changes the configuration no
    further, and never puts a second button in the place of the first. *)
Theorem show_again_is_stable (w : ButtonWorld) :
  userConfig_notifyButton (after (showNotifyButton (after (showNotifyButton w))))
    = userConfig_notifyButton (after (showNotifyButton w)) ∧
  userConfig_bell (after (showNotifyButton (after (showNotifyButton w))))
    = userConfig_bell (after (showNotifyButton w)) ∧
  (∀ bell, OneSignal_notifyButton (after (showNotifyButton w)) = Some bell →
           showNotifyButton (after (showNotifyButton w))
             = {| after := after (showNotifyButton w); did := []; thrown := None |}).
Proof.
  assert (Hguard : ∀ w', isBrowser w' = false ∨ is_Some (OneSignal_notifyButton w') →
                         showNotifyButton w' = {| after := w'; did := []; thrown := None |}).
  { intros w' [Hb | Hs]; unfold showNotifyButton.
    - by rewrite Hb.
    - rewrite bool_decide_eq_true_2 by done. by rewrite andb_false_r. }
  split_and!.
  3: { intros bell Hbell. apply Hguard. right. by eexists. }
  all: destruct (isBrowser w) eqn:Hb;
         [| rewrite (Hguard w) by (by left); cbn [after];
            by rewrite (Hguard w) by (by left)].
  all: destruct (OneSignal_notifyButton w) as [b |] eqn:Hn;
         [rewrite (Hguard w) by (right; rewrite Hn; by eexists); cbn [after];
          by rewrite (Hguard w) by (right; rewrite Hn; by eexists) |].
  all: destruct (show_after w Hb Hn) as (Hb1 & Hc1 & Hnb1 & Hbl1).
  all: destruct (OneSignal_notifyButton (after (showNotifyButton w))) as [b1 |] eqn:Hn1;
         [by rewrite (Hguard (after (showNotifyButton w))) by (right; rewrite Hn1; by eexists) |].
  all: destruct (show_after (after (showNotifyButton w)) Hb1 Hn1) as (_ & _ & Hnb2 & Hbl2).
  - rewrite Hnb2, Hnb1, Hbl1. f_equal. cbn [default from_option id].
    destruct (userConfig_bell w) as [bell |]; cbn [fmap option_fmap option_map default from_option id].
    + apply map_eq. intros key. rewrite !lookup_union.
      by destruct (default ∅ (userConfig_notifyButton w) !! key), (bell !! key).
    + by rewrite !(right_id_L ∅ (∪)).
  - rewrite Hbl2, Hnb1, Hbl1.
    destruct (userConfig_bell w) as [bell |]; cbn [fmap option_fmap option_map default from_option id];
      [| done].
    f_equal. apply map_eq. intros key. rewrite !lookup_union.
    by destruct (default ∅ (userConfig_notifyButton w) !! key), (bell !! key).
Qed.

(** *** The permission check *)

(** X19.  The stored permission is only ever written behind a successful
    trigger of the change event: a run either leaves the [Options] table as
    it was, or it found a stored permission other than the current one,
    triggered the event, saw the trigger fulfilled, and then stored the
    current permission under [notificationPermission]. *)
Theorem permission_stored_after_trigger (w : PermissionWorld) :
  (checkAndTriggerNotificationPermissionChanged w).1 = optionsTable w ∨
  ∃ currentPermission,
    (checkAndTriggerNotificationPermissionChanged w).1
      = <["notificationPermission" := currentPermission]> (optionsTable w) ∧
    (checkAndTriggerNotificationPermissionChanged w).2
      = [TriggerPermissionChanged; PutNotificationPermission currentPermission] ∧
    notificationPermission w = Fulfilled currentPermission ∧
    permissionChangedTrigger w = Fulfilled tt ∧
    optionsTable w !! "notificationPermission" ≠ Some currentPermission.
Proof.
  unfold checkAndTriggerNotificationPermissionChanged, getPreviousPermission.
  destruct (optionsReadFault w); [by left |].
  destruct (notificationPermission w) as [currentPermission | |]; [| by left | by left].
  case_bool_decide as Hne; [| by left].
  destruct (permissionChangedTrigger w) as [[] | |]; [| by left | by left].
  destruct (optionsWriteFault w); [by left |].
  right. by exists currentPermission.
Qed.

(** X20.  When the store and the trigger work, one check brings the stored
    permission up to the current one, fires the event exactly if the two
    differed, and leaves nothing to do for the next check: run again, it
    triggers nothing and writes nothing. *)
Theorem permission_check_settles (w : PermissionWorld) (currentPermission : string) :
  optionsReadFault w = None →
  optionsWriteFault w = None →
  notificationPermission w = Fulfilled currentPermission →
  permissionChangedTrigger w = Fulfilled tt →
  (checkAndTriggerNotificationPermissionChanged w).1 !! "notificationPermission"
    = Some currentPermission ∧
  ((checkAndTriggerNotificationPermissionChanged w).2 = [] ↔
     optionsTable w !! "notificationPermission" = Some currentPermission) ∧
  checkAndTriggerNotificationPermissionChanged (afterPermissionCheck w)
    = ((checkAndTriggerNotificationPermissionChanged w).1, []).
Proof.
  intros Hr Hw Hp Ht.
  assert (Hstored : (checkAndTriggerNotificationPermissionChanged w).1 !! "notificationPermission"
                    = Some currentPermission).
  { unfold checkAndTriggerNotificationPermissionChanged, getPreviousPermission.
    rewrite Hr, Hp, Ht, Hw. case_bool_decide as Hne; cbn [fst].
    - by rewrite lookup_insert_eq.
    - exact Hne. }
  split; [exact Hstored |]. split.
  - unfold checkAndTriggerNotificationPermissionChanged, getPreviousPermission.
    rewrite Hr, Hp, Ht, Hw. case_bool_decide as Hne; cbn [snd].
    + split; [discriminate | congruence].
    + split; [intros _; exact Hne | done].
  - unfold checkAndTriggerNotificationPermissionChanged at 1, getPreviousPermission.
    cbn [afterPermissionCheck optionsReadFault optionsTable notificationPermission].
    rewrite Hr, Hp, Hstored. by rewrite bool_decide_eq_false_2 by (intros H; by apply H).
Qed.

Lemma permission_check_settles_witness :
  optionsReadFault samplePermissionWorld = None ∧
  notificationPermission samplePermissionWorld = Fulfilled "granted" ∧
  (checkAndTriggerNotificationPermissionChanged samplePermissionWorld).1
    !! "notificationPermission" = Some "granted".
Proof.
  split; [reflexivity |]. split; [reflexivity |].
  apply (permission_check_settles samplePermissionWorld "granted"); reflexivity.
Defined.

(** *** The app id and the notification icons *)

(** X21.  [getNotificationIcons] asks the network at most once, and only
    for the icon of an app id that is not empty: without such an id it is
    rejected for the missing app id before any request is made. *)
Theorem icons_fetch_needs_app_id (w : IconsWorld) :
  (filter (λ e, isFetch e = true) (getNotificationIcons w).2 = [] ∨
   ∃ appId value,
     (getAppId w).1 = IconsFulfilled appId ∧
     uuid_value appId = Some value ∧ value ≠ "" ∧
     filter (λ e, isFetch e = true) (getNotificationIcons w).2
       = [Fetch (apiUrl w ++ "/apps/" ++ value ++ "/icon")%string]) ∧
  ((getNotificationIcons w).1 = IconsRejected MissingAppId →
     filter (λ e, isFetch e = true) (getNotificationIcons w).2 = []) ∧
  (∀ appId, (getAppId w).1 = IconsFulfilled appId → truthy (uuid_value appId) = false →
     (getNotificationIcons w).1 = IconsRejected MissingAppId).
Proof.
  assert (Hdid : filter (λ e, isFetch e = true) (getAppId w).2 = []).
  { unfold getAppId. repeat case_match; done. }
  unfold getNotificationIcons.
  destruct (getAppId w) as [[appId | e |] did] eqn:Hid; cbn [fst snd] in *.
  2, 3: split_and!; [by left | done | intros ? [=]].
  destruct (truthy (uuid_value appId)) eqn:Ht; cbn [negb].
  - assert (Hfetch : ∀ rest, filter (λ e, isFetch e = true) rest = [] →
      ∀ url, filter (λ e, isFetch e = true) (did ++ Fetch url :: rest) = [Fetch url]).
    { intros rest Hrest url. rewrite filter_app, Hdid, filter_cons. cbn [isFetch app].
      by rewrite decide_True, Hrest by done. }
    destruct (uuid_value appId) as [value |] eqn:Hv; [| discriminate].
    assert (Hvalue : value ≠ "").
    { intros ->. discriminate. }
    split_and!.
    + right. exists appId, value. split; [done |]. split; [done |]. split; [done |].
      cbn [default from_option id].
      repeat case_match; cbn [snd]; by apply Hfetch.
    + repeat case_match; cbn [fst]; intros [=].
    + intros appId' [= <-]. rewrite Hv. cbn [truthy] in *. congruence.
  - split_and!; [by left | done | done].
Qed.

(** X22.  A configured app id is used as it is: the store is not asked for
    one, neither by [getAppId] nor by [getNotificationIcons]. *)
Theorem configured_app_id_wins (w : IconsWorld) (appId : Uuid) :
  config_appId w = Some appId →
  getAppId w = (IconsFulfilled appId, []) ∧
  DatabaseGetAppId ∉ (getNotificationIcons w).2.
Proof.
  intros Hc. unfold getNotificationIcons, getAppId. rewrite Hc.
  split; [done |].
  repeat case_match; cbn [snd app];
    rewrite ?not_elem_of_cons; repeat split; try discriminate; apply not_elem_of_nil.
Qed.

Lemma configured_app_id_wins_witness :
  config_appId (sampleIconsWorld (Some {| uuid_value := Some "app-1" |}) (Some "app-2")
                  {| errors := JsUndefined; icons := ∅ |})
    = Some {| uuid_value := Some "app-1" |} ∧
  (getNotificationIcons (sampleIconsWorld (Some {| uuid_value := Some "app-1" |}) (Some "app-2")
                           {| errors := JsUndefined; icons := ∅ |})).2
    = [Fetch "https://onesignal.com/api/v1/apps/app-1/icon"; ResponseJson 7] ∧
  DatabaseGetAppId ∉
    (getNotificationIcons (sampleIconsWorld (Some {| uuid_value := Some "app-1" |}) (Some "app-2")
                             {| errors := JsUndefined; icons := ∅ |})).2.
Proof.
  split; [reflexivity |]. split; [reflexivity |].
  apply (configured_app_id_wins _ {| uuid_value := Some "app-1" |}). reflexivity.
Defined.

(** X23.  [getNotificationIcons] is fulfilled only with a reply that was
    fetched and parsed and that carries no [errors]; a reply with [errors] is
    logged and turned into the rejection that the icons could not be got. *)
Theorem icons_fulfilled_without_errors (w : IconsWorld) :
  (∀ data, (getNotificationIcons w).1 = IconsFulfilled data →
     js_truthy (errors data) = false ∧
     ∃ url response,
       Fetch url ∈ (getNotificationIcons w).2 ∧
       fetch w url = Fulfilled response ∧
       response_json w response = Fulfilled data) ∧
  ((getNotificationIcons w).1 = IconsRejected FailedToGetIcons →
     ∃ url response data,
       fetch w url = Fulfilled response ∧
       response_json w response = Fulfilled data ∧
       js_truthy (errors data) = true ∧
       LogError url ∈ (getNotificationIcons w).2).
Proof.
  assert (Hown : (getAppId w).1 ≠ IconsRejected FailedToGetIcons).
  { unfold getAppId. repeat case_match; cbn [fst]; congruence. }
  unfold getNotificationIcons.
  destruct (getAppId w) as [[appId | e |] did] eqn:Hid; cbn [fst snd] in *.
  - destruct (negb (truthy (uuid_value appId))); [split; [intros ? [=] | intros [=]] |].
    destruct (fetch w _) as [response | |] eqn:Hf; [| split; [intros ? [=] | intros [=]] ..].
    destruct (response_json w response) as [data | |] eqn:Hj;
      [| split; [intros ? [=] | intros [=]] ..].
    destruct (js_truthy (errors data)) eqn:He; cbn [fst snd].
    + split; [intros ? [=] |]. intros _. eexists _, response, data.
      split; [exact Hf |]. split; [exact Hj |]. split; [exact He |].
      rewrite elem_of_app. right. rewrite !elem_of_cons. auto.
    + split; [| intros [=]]. intros data' [= <-]. split; [exact He |].
      eexists _, response. split; [| by split].
      rewrite elem_of_app. right. left.
  - split; [intros ? [=] |]. intros [= ->]. by destruct Hown.
  - split; [intros ? [=] | intros [=]].
Qed.
